(** * The multi-agent Atari session adapter (pettingzoo/atari/base_atari_env.py)

    A shallow embedding of [ParallelAtariEnv]: the constructor, [reset],
    [_observe], [step] and [render], over an abstract emulator handle
    (multi_agent_ale_py's [ALEInterface]) and an abstract host (pathlib's
    file system view).  Python dictionaries are finite maps with string
    keys, exceptions are the left summand of a result type, and the
    attributes of [self] are the fields of a record that every method
    threads explicitly. *)

From stdpp Require Import gmap strings list fin_maps pretty.
From Stdlib Require Import Ascii.

Open Scope Z_scope.

(** ** Exceptions and the result type *)

Inductive exn : Type :=
  | AssertionError (msg : string)
  | OSError (msg : string)
  | ValueError (msg : string)
  | IndexError
  | KeyError (key : string)
  | OverflowError
  | AttributeError (name : string)
  | UnboundLocalError (name : string)
  | GymnasiumError.

Definition result (A : Type) : Type := exn + A.

Definition ret {A} (a : A) : result A := inr a.
Definition raise {A} (e : exn) : result A := inl e.

Definition bind {A B} (m : result A) (k : A → result B) : result B :=
  match m with
  | inl e => inl e
  | inr a => k a
  end.

Notation "'let*' x := m 'in' k" := (bind m (λ x, k))
  (at level 10, x pattern, m at level 100, k at level 200).

(** [assert cond, msg] *)
Definition assert (cond : bool) (msg : string) : result unit :=
  if cond then ret tt else raise (AssertionError msg).

Fixpoint mapM {A B} (f : A → result B) (l : list A) : result (list B) :=
  match l with
  | [] => ret []
  | x :: l' =>
      let* y := f x in
      let* ys := mapM f l' in
      ret (y :: ys)
  end.

(** ** Python and NumPy primitives used by the adapter *)

(** [range(n)] for an integer [n]; empty when [n <= 0]. *)
Definition range (n : Z) : list Z := Z.of_nat <$> seq 0 (Z.to_nat n).

(** [enumerate(l)] *)
Definition enumerate {A} (l : list A) : list (nat * A) :=
  zip (seq 0 (length l)) l.

(** [l[i]] on a Python list or a one-dimensional array: a negative index
    counts from the end, anything outside [-len, len) raises IndexError. *)
Definition getitem {A} (l : list A) (i : Z) : result A :=
  let n := Z.of_nat (length l) in
  let j := if i <? 0 then i + n else i in
  if (0 <=? j) && (j <? n)
  then match l !! Z.to_nat j with
       | Some x => ret x
       | None => raise IndexError
       end
  else raise IndexError.

(** A dictionary comprehension [{k: v for ...}] over the listed pairs: a
    key that occurs again takes the later value. *)
Definition dict_of {V} (kvs : list (string * V)) : gmap string V :=
  foldl (λ m kv, <[kv.1 := kv.2]> m) ∅ kvs.

(** [d[k]] *)
Definition dict_getitem {V} (d : gmap string V) (k : string) : result V :=
  match d !! k with
  | Some v => ret v
  | None => raise (KeyError k)
  end.

(** [x in l] on a list *)
Definition list_in (x : string) (l : list string) : bool :=
  bool_decide (x ∈ l).

Definition int32_min : Z := - 2 ^ 31.
Definition int32_max : Z := 2 ^ 31 - 1.

(** [a[i] = x] on an int32 array, for an index produced by [enumerate];
    an integer that does not fit in int32 is refused. *)
Definition np_setitem (a : list Z) (i : nat) (x : Z) : result (list Z) :=
  if decide (i < length a)%nat
  then if (int32_min <=? x) && (x <=? int32_max)
       then ret (<[i := x]> a)
       else raise OverflowError
  else raise IndexError.

(** [table[idx]] with an integer array [idx]: element-wise indexing. *)
Definition np_take (table : list Z) (idx : list Z) : result (list Z) :=
  mapM (getitem table) idx.

(** [np.zeros(n, dtype=np.int32)] and [np.arange(n)] *)
Definition np_zeros (n : nat) : list Z := replicate n 0.
Definition np_arange (n : Z) : list Z := range n.

(** ** The external collaborators *)

(** The emulator handle.  [ALE] is the state behind the handle; a call
    that mutates the emulator returns the new state, a query reads it.
    All calls are taken to succeed. *)
Class ALEInterface := {
  ALE : Type;
  ALEInterface_new : ALE;
  setFloat : string → Z → ALE → ALE;
  setInt : string → Z → ALE → ALE;
  loadROM : string → ALE → ALE;
  getAvailableModes : ALE → Z → list Z;
  setMode : Z → ALE → ALE;
  numPlayersActive : ALE → Z;
  getMinimalActionSet : ALE → list Z;
  getScreenDims : ALE → Z * Z;
  reset_game : ALE → ALE;
  act : ALE → list Z → ALE * list Z;
  game_over : ALE → bool;
  allLives : ALE → list Z;
  getRAM : ALE → list Z;
  getScreenRGB : ALE → list Z;
  getScreenGrayscale : ALE → list Z;
}.

(** The host: pathlib paths and the file system they are tested against.
    [package_dir] is [Path(multi_agent_ale_py.__file__).parent]. *)
Class Host := {
  Path : Type;
  package_dir : Path;
  resolve : string → Path;
  joinpath : Path → string → Path;
  exists_ : Path → bool;
  path_str : Path → string;
}.

(** [seeding.np_random(seed)]: the generator (identified with the seed it
    was made from) and the seed used; [entropy] is what the operating
    system supplies when no seed is given.  Gymnasium refuses a negative
    seed with its own [gymnasium.error.Error]. *)
Definition seeding_np_random (seed : option Z) (entropy : Z) : result (Z * Z) :=
  match seed with
  | Some s => if s <? 0 then raise GymnasiumError else ret (s, s)
  | None => ret (entropy, entropy)
  end.

(** ** The adapter's state *)

Record Metadata := {
  render_modes : list string;
  name : string;
  render_fps : Z;
}.

(** The pygame display surface: its size and what was last drawn. *)
Record Surface := {
  surface_size : Z * Z;
  surface_image : option (list Z);
}.

Section Adapter.
Context {emulator : ALEInterface} {host : Host}.

(** The attributes of [self].  [terminations] and [frame] are first
    assigned by [reset]; before that they do not exist. *)
Record ParallelAtariEnv := {
  obs_type : string;
  full_action_space : bool;
  num_players : Z;
  max_cycles : Z;
  metadata : Metadata;
  render_mode : option string;
  ale : ALE;
  rom_path : string;
  mode : Z;
  action_mapping : list Z;
  agents : list string;
  possible_agents : list string;
  action_spaces : gmap string Z;
  observation_spaces : gmap string (list Z);
  _screen : option Surface;
  np_random : Z;
  terminations : option (gmap string bool);
  frame : option Z;
}.

Definition set_ale (a : ALE) (self : ParallelAtariEnv) : ParallelAtariEnv :=
  {| obs_type := obs_type self; full_action_space := full_action_space self;
     num_players := num_players self; max_cycles := max_cycles self;
     metadata := metadata self; render_mode := render_mode self;
     ale := a; rom_path := rom_path self; mode := mode self;
     action_mapping := action_mapping self; agents := agents self;
     possible_agents := possible_agents self;
     action_spaces := action_spaces self;
     observation_spaces := observation_spaces self;
     _screen := _screen self; np_random := np_random self;
     terminations := terminations self; frame := frame self |}.

Definition set_agents (l : list string) (self : ParallelAtariEnv) : ParallelAtariEnv :=
  {| obs_type := obs_type self; full_action_space := full_action_space self;
     num_players := num_players self; max_cycles := max_cycles self;
     metadata := metadata self; render_mode := render_mode self;
     ale := ale self; rom_path := rom_path self; mode := mode self;
     action_mapping := action_mapping self; agents := l;
     possible_agents := possible_agents self;
     action_spaces := action_spaces self;
     observation_spaces := observation_spaces self;
     _screen := _screen self; np_random := np_random self;
     terminations := terminations self; frame := frame self |}.

Definition set_frame (n : Z) (self : ParallelAtariEnv) : ParallelAtariEnv :=
  {| obs_type := obs_type self; full_action_space := full_action_space self;
     num_players := num_players self; max_cycles := max_cycles self;
     metadata := metadata self; render_mode := render_mode self;
     ale := ale self; rom_path := rom_path self; mode := mode self;
     action_mapping := action_mapping self; agents := agents self;
     possible_agents := possible_agents self;
     action_spaces := action_spaces self;
     observation_spaces := observation_spaces self;
     _screen := _screen self; np_random := np_random self;
     terminations := terminations self; frame := Some n |}.

Definition set_terminations (t : gmap string bool) (self : ParallelAtariEnv)
  : ParallelAtariEnv :=
  {| obs_type := obs_type self; full_action_space := full_action_space self;
     num_players := num_players self; max_cycles := max_cycles self;
     metadata := metadata self; render_mode := render_mode self;
     ale := ale self; rom_path := rom_path self; mode := mode self;
     action_mapping := action_mapping self; agents := agents self;
     possible_agents := possible_agents self;
     action_spaces := action_spaces self;
     observation_spaces := observation_spaces self;
     _screen := _screen self; np_random := np_random self;
     terminations := Some t; frame := frame self |}.

Definition set_np_random (r : Z) (self : ParallelAtariEnv) : ParallelAtariEnv :=
  {| obs_type := obs_type self; full_action_space := full_action_space self;
     num_players := num_players self; max_cycles := max_cycles self;
     metadata := metadata self; render_mode := render_mode self;
     ale := ale self; rom_path := rom_path self; mode := mode self;
     action_mapping := action_mapping self; agents := agents self;
     possible_agents := possible_agents self;
     action_spaces := action_spaces self;
     observation_spaces := observation_spaces self;
     _screen := _screen self; np_random := r;
     terminations := terminations self; frame := frame self |}.

Definition set_screen (s : option Surface) (self : ParallelAtariEnv)
  : ParallelAtariEnv :=
  {| obs_type := obs_type self; full_action_space := full_action_space self;
     num_players := num_players self; max_cycles := max_cycles self;
     metadata := metadata self; render_mode := render_mode self;
     ale := ale self; rom_path := rom_path self; mode := mode self;
     action_mapping := action_mapping self; agents := agents self;
     possible_agents := possible_agents self;
     action_spaces := action_spaces self;
     observation_spaces := observation_spaces self;
     _screen := s; np_random := np_random self;
     terminations := terminations self; frame := frame self |}.

(** *** [_observe] *)

Definition obs_type_error : string :=
  "obs_type must  either be 'ram' or 'rgb_image' or 'grayscale_image'".

Definition _observe (self : ParallelAtariEnv) : result (list Z) :=
  if String.eqb (obs_type self) "ram" then ret (getRAM (ale self))
  else if String.eqb (obs_type self) "rgb_image" then ret (getScreenRGB (ale self))
  else if String.eqb (obs_type self) "grayscale_image"
       then ret (getScreenGrayscale (ale self))
  else raise (ValueError obs_type_error).

(** *** [_seed] *)

Definition _seed (seed : option Z) (entropy : Z) (self : ParallelAtariEnv)
  : result ParallelAtariEnv :=
  let* seeded := seeding_np_random seed entropy in
  let self := set_np_random seeded.1 self in
  let a := setInt "random_seed" seeded.2 (ale self) in
  let a := loadROM (rom_path self) a in
  let a := setMode (mode self) a in
  ret (set_ale a self).

(** *** [reset] *)

Definition info : Type := gmap string Z.

Definition reset (self : ParallelAtariEnv) (seed : option Z) (entropy : Z)
  : result (ParallelAtariEnv * (gmap string (list Z) * gmap string info)) :=
  let* self :=
    match seed with
    | Some _ => _seed seed entropy self
    | None =>
        let* seeded := seeding_np_random None entropy in
        ret (set_np_random seeded.1 self)
    end in
  let self := set_ale (reset_game (ale self)) self in
  let self := set_agents (possible_agents self) self in
  let self :=
    set_terminations (dict_of ((λ agent, (agent, false)) <$> possible_agents self))
      self in
  let self := set_frame 0 self in
  let* obs := _observe self in
  let infos : gmap string info :=
    dict_of ((λ agent, (agent, ∅)) <$>
             filter (λ agent, list_in agent (agents self) = true)
               (possible_agents self)) in
  ret (self, (dict_of ((λ agent, (agent, obs)) <$> agents self), infos)).

(** *** [render] *)

Definition render_warning : string :=
  "You are calling render method without specifying any render mode.".

Definition zoom_factor : Z := 4.

(** The value is the new state, the warnings logged through
    [gymnasium.logger.warn], and the frame returned (if any). *)
Definition render (self : ParallelAtariEnv)
  : result (ParallelAtariEnv * list string * option (list Z)) :=
  match render_mode self with
  | None => ret (self, [render_warning], None)
  | Some rm =>
      let* _ := assert (bool_decide (rm ∈ render_modes (metadata self)))
                  (rm +:+ " is not a valid render mode") in
      let '(screen_width, screen_height) := getScreenDims (ale self) in
      let image := getScreenRGB (ale self) in
      if String.eqb rm "human" then
        let size := (screen_width * zoom_factor, screen_height * zoom_factor) in
        let screen :=
          match _screen self with
          | None => {| surface_size := size; surface_image := None |}
          | Some s => s
          end in
        let screen :=
          {| surface_size := surface_size screen; surface_image := Some image |} in
        ret (set_screen (Some screen) self, [], None)
      else if String.eqb rm "rgb_array" then ret (self, [], Some image)
      else ret (self, [], None)
  end.

(** *** [step] *)

(** Modelled from the spec: [max_num_agents] is a property of the
    [ParallelEnv] base class, which is not among the sources; the action
    vector is "sized to the full possible-agent roster". *)
Definition max_num_agents (self : ParallelAtariEnv) : nat :=
  length (possible_agents self).

(** The loop [for i, agent in enumerate(self.possible_agents)] that fills
    the dense action vector. *)
Fixpoint fill_actions (slots : list (nat * string)) (action_dict : gmap string Z)
    (actions : list Z) : result (list Z) :=
  match slots with
  | [] => ret actions
  | (i, agent) :: slots' =>
      match action_dict !! agent with
      | Some a =>
          let* actions := np_setitem actions i a in
          fill_actions slots' action_dict actions
      | None => fill_actions slots' action_dict actions
      end
  end.

(** Lines 238 to 243: the vector handed to [ale.act]. *)
Definition native_actions (self : ParallelAtariEnv) (action_dict : gmap string Z)
  : result (list Z) :=
  let actions := np_zeros (max_num_agents self) in
  let* actions := fill_actions (enumerate (possible_agents self)) action_dict actions in
  np_take (action_mapping self) actions.

(** [[agent for agent in self.agents if not terminations[agent]]] *)
Fixpoint prune (terminations : gmap string bool) (agents : list string)
  : result (list string) :=
  match agents with
  | [] => ret []
  | agent :: agents' =>
      let* t := dict_getitem terminations agent in
      let* rest := prune terminations agents' in
      ret (if t then rest else agent :: rest)
  end.

Definition step_result : Type :=
  gmap string (list Z) * gmap string Z * gmap string bool * gmap string bool
  * gmap string info.

Definition step (self : ParallelAtariEnv) (action_dict : gmap string Z)
  : result (ParallelAtariEnv * step_result) :=
  let* actions := native_actions self action_dict in
  let '(a, rewards) := act (ale self) actions in
  let self := set_ale a self in
  let* frame := match frame self with
                | Some n => ret (n + 1)
                | None => raise (AttributeError "frame")
                end in
  let self := set_frame frame self in
  let truncations :=
    dict_of ((λ agent, (agent, max_cycles self <=? frame)) <$> agents self) in
  let terminations :=
    if game_over (ale self)
    then dict_of ((λ agent, (agent, true)) <$> agents self)
    else
      let lives := allLives (ale self) in
      dict_of ((λ '(agent, life), (agent, life <? 0)) <$>
               filter (λ '(agent, life), list_in agent (agents self) = true)
                 (zip (possible_agents self) lives)) in
  let* obs := _observe self in
  let observations := dict_of ((λ agent, (agent, obs)) <$> agents self) in
  let rewards :=
    dict_of (filter (λ '(agent, rew), list_in agent (agents self) = true)
               (zip (possible_agents self) rewards)) in
  let infos : gmap string info :=
    dict_of ((λ agent, (agent, ∅)) <$>
             filter (λ agent, list_in agent (agents self) = true)
               (possible_agents self)) in
  let* remaining := prune terminations (agents self) in
  let self := set_agents remaining self in
  let* self :=
    if bool_decide (render_mode self = Some "human")
    then let* r := render self in ret r.1.1
    else ret self in
  ret (self, (observations, rewards, terminations, truncations, infos)).

(** *** [__init__] *)

(** [str(list(l))] for an array of int32 values, each printed the way
    NumPy 2 prints an int32 scalar. *)
Definition repr_list (l : list Z) : string :=
  "[" +:+ String.concat ", " ((λ x, "np.int32(" +:+ pretty x +:+ ")") <$> l)
  +:+ "]".

Definition rom_error (game : string) : string :=
  "rom " +:+ game +:+
  " is not installed. Please install roms using AutoROM tool (https://github.com/Farama-Foundation/AutoROM) "
  +:+ "or specify and double-check the path to your Atari rom using the `rom_path` argument.".

Definition mode_error (mode_num : Z) (all_modes : list Z) : string :=
  "mode_num parameter is wrong. Mode " +:+ pretty mode_num +:+ " selected, only "
  +:+ repr_list all_modes +:+ " modes are supported".

(** Lines 107 to 126: the search for [{game}.bin]. *)
Definition find_rom (game : string) (auto_rom_install_path : option string)
  : result Path :=
  let start :=
    match auto_rom_install_path with
    | None => package_dir
    | Some p => resolve p
    end in
  let final := joinpath start (game +:+ ".bin") in
  let final :=
    if negb (exists_ final)
    then joinpath (joinpath start "roms") (game +:+ ".bin")
    else final in
  let final :=
    if negb (exists_ final)
    then joinpath (joinpath (joinpath start "ROM") game) (game +:+ ".bin")
    else final in
  if negb (exists_ final) then raise (OSError (rom_error game)) else ret final.

Definition player_names : list string := ["first"; "second"; "third"; "fourth"].

Definition __init__ (game : string) (num_players : Z) (mode_num seed : option Z)
    (obs_type : string) (full_action_space : bool) (env_name : option string)
    (max_cycles : Z) (render_mode auto_rom_install_path : option string)
    (entropy : Z) : result ParallelAtariEnv :=
  let* _ := assert (bool_decide (obs_type ∈ ["ram"; "rgb_image"; "grayscale_image"]))
              obs_type_error in
  let env_name :=
    match env_name with
    | None => "custom_" +:+ game
    | Some n => n
    end in
  let metadata :=
    {| render_modes := ["human"; "rgb_array"]; name := env_name; render_fps := 60 |} in
  let a := ALEInterface_new in
  let a := setFloat "repeat_action_probability" 0 a in
  let* final := find_rom game auto_rom_install_path in
  let rom_path := path_str final in
  let a := loadROM rom_path a in
  let all_modes := getAvailableModes a num_players in
  let* mode :=
    match mode_num with
    | None => getitem all_modes 0
    | Some m =>
        let* _ := assert (bool_decide (m ∈ all_modes)) (mode_error m all_modes) in
        ret m
    end in
  let a := setMode mode a in
  let* _ := assert (bool_decide (num_players = numPlayersActive a)) "" in
  let '(action_size, action_mapping) :=
    if full_action_space
    then (18, np_arange 18)
    else let action_mapping := getMinimalActionSet a in
         (Z.of_nat (length action_mapping), action_mapping) in
  let* observation_space :=
    if String.eqb obs_type "ram" then ret [128]
    else
      let '(screen_width, screen_height) := getScreenDims a in
      let* num_channels :=
        if String.eqb obs_type "rgb_image" then ret 3
        else if String.eqb obs_type "grayscale_image" then ret 1
        else raise (UnboundLocalError "num_channels") in
      ret [screen_height; screen_width; num_channels] in
  let* agents :=
    mapM (λ n, let* p := getitem player_names n in ret (p +:+ "_0"))
      (range num_players) in
  let possible_agents := agents in
  let self :=
    {| obs_type := obs_type; full_action_space := full_action_space;
       num_players := num_players; max_cycles := max_cycles;
       metadata := metadata; render_mode := render_mode;
       ale := a; rom_path := rom_path; mode := mode;
       action_mapping := action_mapping; agents := agents;
       possible_agents := possible_agents;
       action_spaces :=
         dict_of ((λ agent, (agent, action_size)) <$> possible_agents);
       observation_spaces :=
         dict_of ((λ agent, (agent, observation_space)) <$> possible_agents);
       _screen := None; np_random := 0;
       terminations := None; frame := None |} in
  _seed seed entropy self.

(** ** Episodes *)

(** Two states that differ at most in the episode-scoped attributes
    ([agents], [ale], [frame], [terminations], [np_random], [_screen]). *)
Definition same_config (self self' : ParallelAtariEnv) : Prop :=
  obs_type self' = obs_type self ∧
  max_cycles self' = max_cycles self ∧
  possible_agents self' = possible_agents self ∧
  action_mapping self' = action_mapping self ∧
  render_mode self' = render_mode self ∧
  metadata self' = metadata self.

(** [after_steps self0 k self]: [self] is the state after [k] calls of
    [step], each of which returned, starting from [self0]. *)
Inductive after_steps (self0 : ParallelAtariEnv) : nat → ParallelAtariEnv → Prop :=
  | after_steps_O : after_steps self0 0 self0
  | after_steps_S k self action_dict self' out :
      after_steps self0 k self →
      step self action_dict = inr (self', out) →
      after_steps self0 (S k) self'.

(** The emulator's side of [act]: one reward per slot of the action
    vector it is given. *)
Definition one_reward_per_slot : Prop :=
  ∀ (a : ALE) (actions : list Z), length (act a actions).2 = length actions.

(** The three places [__init__] looks for the ROM, relative to the search
    root. *)
Definition rom_candidates (game : string) (auto_rom_install_path : option string)
  : list Path :=
  let start :=
    match auto_rom_install_path with
    | None => package_dir
    | Some p => resolve p
    end in
  [ joinpath start (game +:+ ".bin");
    joinpath (joinpath start "roms") (game +:+ ".bin");
    joinpath (joinpath (joinpath start "ROM") game) (game +:+ ".bin") ].

Definition valid_obs_types : list string := ["ram"; "rgb_image"; "grayscale_image"].

(** The agent names the constructor can build: it takes a prefix of
    these. *)
Definition all_agent_names : list string :=
  ["first_0"; "second_0"; "third_0"; "fourth_0"].

End Adapter.

(** ** The remaining methods *)

Section Accessors.
Context {emulator : ALEInterface} {host : Host}.

(** [observation_space(agent)] and [action_space(agent)]: the descriptor
    stored for the agent at construction; a [Box] is given by its shape,
    a [Discrete] by its size. *)
Definition observation_space (self : ParallelAtariEnv) (agent : string)
  : result (list Z) :=
  dict_getitem (observation_spaces self) agent.

Definition action_space (self : ParallelAtariEnv) (agent : string) : result Z :=
  dict_getitem (action_spaces self) agent.

(** [close]: the display surface, if there is one, is given up. *)
Definition close (self : ParallelAtariEnv) : ParallelAtariEnv :=
  match _screen self with
  | Some _ => set_screen None self
  | None => self
  end.

(** The emulator as [_seed] leaves it: reseeded, with the ROM loaded and
    the mode set again. *)
Definition reseeded (self : ParallelAtariEnv) (seed : Z) : ALE :=
  setMode (mode self)
    (loadROM (rom_path self) (setInt "random_seed" seed (ale self))).

End Accessors.

(** ** Foozpong (pettingzoo/atari/foozpong/foozpong.py) *)

Module foozpong.

(** [s.split(sep)] for a one-character separator. *)
Fixpoint split (sep : ascii) (s : string) : list string :=
  match s with
  | EmptyString => [EmptyString]
  | String c s' =>
      if Ascii.eqb c sep then EmptyString :: split sep s'
      else match split sep s' with
           | w :: ws => String c w :: ws
           | [] => [String c EmptyString]
           end
  end.

(** [s.rstrip(c)] for a single character. *)
Fixpoint rstrip (c : ascii) (s : string) : string :=
  match s with
  | EmptyString => EmptyString
  | String x s' =>
      match rstrip c s' with
      | EmptyString => if Ascii.eqb x c then EmptyString else String x EmptyString
      | r => String x r
      end
  end.

(** [s[:s.rfind(c) + 1]]: the part of [s] up to and including the last
    [c], empty when there is none. *)
Fixpoint upto_last (c : ascii) (s : string) : string :=
  match s with
  | EmptyString => EmptyString
  | String x s' =>
      match upto_last c s' with
      | EmptyString => if Ascii.eqb x c then String x EmptyString else EmptyString
      | h => String x h
      end
  end.

(** [os.path.basename], [os.path.dirname] and the two-argument
    [os.path.join] of posixpath. *)
Definition basename (p : string) : string := List.last (split "/"%char p) "".

Definition dirname (p : string) : string :=
  let head := upto_last "/"%char p in
  match rstrip "/"%char head with
  | EmptyString => head
  | stripped => stripped
  end.

Definition join (a b : string) : string :=
  match b with
  | String "/" _ => b
  | _ =>
      match a with
      | EmptyString => b
      | _ => if String.eqb (rstrip "/"%char a) a then a +:+ "/" +:+ b else a +:+ b
      end
  end.

Definition player_count_error : string := "pong only supports 2 or 4 players".

(** [c in s] for a character. *)
Fixpoint contains (c : ascii) (s : string) : bool :=
  match s with
  | EmptyString => false
  | String x s' => Ascii.eqb x c || contains c s'
  end.

Definition mode_mapping : gmap Z Z := <[4 := 21]> (<[2 := 19]> ∅).

(** [parent_file[0].split("_")[-1].split(".")[0]] *)
Definition version_num (parent_file : list string) : result string :=
  let* first := getitem parent_file 0 in
  let* last := getitem (split "_"%char first) (-1) in
  getitem (split "."%char last) 0.

Section raw_env.
Context {emulator : ALEInterface} {host : Host}.

(** [raw_env(num_players, **kwargs)].  [file] is the module's [__file__]
    and [glob] the file-name matcher of the host; the keyword arguments
    that [ParallelAtariEnv] accepts besides the four fixed here are given
    one by one.  The value is the parallel adapter that the call
    constructs; [BaseAtariEnv] hands it to [parallel_to_aec_wrapper],
    which is not part of these sources. *)
Definition raw_env (file : string) (glob : string → list string)
    (num_players : Z) (seed : option Z) (obs_type : string)
    (full_action_space : bool) (max_cycles : Z)
    (render_mode auto_rom_install_path : option string) (entropy : Z)
  : result ParallelAtariEnv :=
  let* _ := assert (bool_decide (num_players = 2) || bool_decide (num_players = 4))
              player_count_error in
  let* mode :=
    match mode_mapping !! num_players with
    | Some m => ret m
    | None => raise (KeyError (pretty num_players))
    end in
  let* name := getitem (split "."%char (basename file)) 0 in
  let parent_file := glob (join (dirname (dirname file)) (name +:+ "*.py")) in
  let* version := version_num parent_file in
  let name := name +:+ "_" +:+ version in
  __init__ "pong" num_players (Some mode) seed obs_type full_action_space
    (Some name) max_cycles render_mode auto_rom_install_path entropy.

End raw_env.

End foozpong.

(** ** A small emulator and host to run the adapter on

    A two-to-four player game whose state is the mode, the number of
    ticks played, and the action vectors received (latest first).  Every
    slot scores its own native action code; slot [i] starts with [i + 1]
    lives and loses one each tick; the game is over after ten ticks. *)

Module Toy.

Record state := {
  rom : option string;
  toy_mode : Z;
  ticks : Z;
  received : list (list Z);
}.

Definition players (s : state) : Z := if toy_mode s =? 21 then 4 else 2.

#[export] Instance toy_ale : ALEInterface := {|
  ALE := state;
  ALEInterface_new := {| rom := None; toy_mode := 0; ticks := 0; received := [] |};
  setFloat := λ _ _ s, s;
  setInt := λ _ _ s, s;
  loadROM := λ p s, {| rom := Some p; toy_mode := 19; ticks := 0; received := [] |};
  getAvailableModes := λ _ n,
    if n =? 2 then [19; 20] else if n =? 4 then [21] else [];
  setMode := λ m s,
    {| rom := rom s; toy_mode := m; ticks := ticks s; received := received s |};
  numPlayersActive := players;
  getMinimalActionSet := λ _, [0; 1; 3; 4; 11; 12];
  getScreenDims := λ _, (160, 210);
  reset_game := λ s,
    {| rom := rom s; toy_mode := toy_mode s; ticks := 0; received := [] |};
  act := λ s v,
    ({| rom := rom s; toy_mode := toy_mode s; ticks := ticks s + 1;
        received := v :: received s |}, v);
  game_over := λ s, 10 <=? ticks s;
  allLives := λ s, (λ i, i + 1 - ticks s) <$> range (players s);
  getRAM := λ s, [ticks s];
  getScreenRGB := λ s, [ticks s; ticks s; ticks s];
  getScreenGrayscale := λ s, [ticks s];
|}.

(** Paths are strings; exactly one file exists. *)
#[export] Instance toy_host : Host := {|
  Path := string;
  package_dir := "/site-packages/multi_agent_ale_py";
  resolve := λ p, p;
  joinpath := λ p q, p +:+ "/" +:+ q;
  exists_ := λ p, String.eqb p "/site-packages/multi_agent_ale_py/roms/pong.bin";
  path_str := λ p, p;
|}.

(** A host on which no file exists. *)
Definition empty_host : Host := {|
  Path := string;
  package_dir := "/site-packages/multi_agent_ale_py";
  resolve := λ p, p;
  joinpath := λ p q, p +:+ "/" +:+ q;
  exists_ := λ _, false;
  path_str := λ p, p;
|}.

End Toy.

(** Concrete adapter states on the toy emulator: a two-player game of
    pong in mode 19, observed through RAM. *)
Module Demo.
Import Toy.

Definition playing (t : Z) (log : list (list Z)) : state :=
  {| rom := Some "/site-packages/multi_agent_ale_py/roms/pong.bin";
     toy_mode := 19; ticks := t; received := log |}.

Definition env (cycles : Z) (rmode : option string) (emu : state)
    (active : list string) (rng : Z) (flags : option (gmap string bool))
    (count : option Z) : ParallelAtariEnv :=
  {| obs_type := "ram"; full_action_space := false; num_players := 2;
     max_cycles := cycles;
     metadata := {| render_modes := ["human"; "rgb_array"];
                    name := "custom_pong"; render_fps := 60 |};
     render_mode := rmode; ale := emu;
     rom_path := "/site-packages/multi_agent_ale_py/roms/pong.bin";
     mode := 19; action_mapping := [0; 1; 3; 4; 11; 12];
     agents := active; possible_agents := ["first_0"; "second_0"];
     action_spaces := dict_of [("first_0", 6); ("second_0", 6)];
     observation_spaces := dict_of [("first_0", [128]); ("second_0", [128])];
     _screen := None; np_random := rng; terminations := flags; frame := count |}.

Definition both : list string := ["first_0"; "second_0"].
Definition cleared : gmap string bool :=
  dict_of [("first_0", false); ("second_0", false)].
Definition no_infos : gmap string info :=
  dict_of [("first_0", ∅); ("second_0", ∅)].
Definition same_obs (o : list Z) : gmap string (list Z) :=
  dict_of [("first_0", o); ("second_0", o)].
Definition flags (first second : bool) : gmap string bool :=
  dict_of [("first_0", first); ("second_0", second)].

(** Both agents move: logical actions 2 and 5, native codes 3 and 12. *)
Definition moves : gmap string Z := dict_of [("first_0", 2); ("second_0", 5)].
(** Only the second agent supplies an action. *)
Definition second_only : gmap string Z := dict_of [("second_0", 5)].

Definition scores : gmap string Z := dict_of [("first_0", 3); ("second_0", 12)].

(** The states of an episode with [max_cycles = cycles]: as constructed,
    after [reset], and after one, two and three steps. *)
Definition constructed (cycles : Z) : ParallelAtariEnv :=
  env cycles None (playing 0 []) both 7 None None.
Definition started (cycles : Z) : ParallelAtariEnv :=
  env cycles None (playing 0 []) both 5 (Some cleared) (Some 0).
Definition after1 (cycles : Z) : ParallelAtariEnv :=
  env cycles None (playing 1 [[3; 12]]) both 5 (Some cleared) (Some 1).
Definition after2 (cycles : Z) : ParallelAtariEnv :=
  env cycles None (playing 2 [[3; 12]; [3; 12]]) ["second_0"] 5 (Some cleared)
    (Some 2).
Definition after3 (cycles : Z) : ParallelAtariEnv :=
  env cycles None (playing 3 [[0; 12]; [3; 12]; [3; 12]]) [] 5 (Some cleared)
    (Some 3).

End Demo.

(** More concrete states and inputs on the toy emulator. *)
Module Demo2.
Import Toy Demo.

(** The adapter a construction returned ([constructed 0] stands in when
    it raised). *)
Definition built (r : result ParallelAtariEnv) : ParallelAtariEnv :=
  match r with
  | inr self => self
  | inl _ => constructed 0
  end.

(** Pong with the full action space, and pong observed as colour images. *)
Definition full_pong : ParallelAtariEnv :=
  built (__init__ "pong" 2 (Some 19) None "ram" true None 3 None None 7).
Definition rgb_pong : ParallelAtariEnv :=
  built (__init__ "pong" 2 (Some 19) None "rgb_image" false None 3 None None 7).

(** An action outside the six-entry table. *)
Definition too_big : gmap string Z := dict_of [("first_0", 6)].

(** A fourth step, taken when nobody is active any more. *)
Definition after4 : ParallelAtariEnv :=
  env 3 None (playing 4 [[0; 0]; [0; 12]; [3; 12]; [3; 12]]) [] 5 (Some cleared)
    (Some 4).

(** A state one tick before the toy game is over, and the one after. *)
Definition late : ParallelAtariEnv :=
  env 3 None (playing 9 []) both 5 (Some cleared) (Some 9).
Definition over : ParallelAtariEnv :=
  env 3 None (playing 10 [[3; 12]]) [] 5 (Some cleared) (Some 10).

(** The first-step states under the other render modes. *)
Definition shown (rmode : string) : ParallelAtariEnv :=
  env 3 (Some rmode) (playing 1 [[3; 12]]) both 5 (Some cleared) (Some 1).
Definition drawn : Surface :=
  {| surface_size := (640, 840); surface_image := Some [1; 1; 1] |}.

(** The foozpong module's file, and a matcher that finds its versioned
    sibling. *)
Definition foozpong_file : string :=
  "/site-packages/pettingzoo/atari/foozpong/foozpong.py".
Definition toy_glob (pattern : string) : list string :=
  if String.eqb pattern "/site-packages/pettingzoo/atari/foozpong*.py"
  then ["/site-packages/pettingzoo/atari/foozpong_v3.py"]
  else [].
Definition foozpong_four : ParallelAtariEnv :=
  built (foozpong.raw_env foozpong_file toy_glob 4 None "rgb_image" false 100000
           None None 7).

End Demo2.

(** ** Facts about the primitives *)

Lemma bind_inr {A B} (m : result A) (k : A → result B) (b : B) :
  bind m k = inr b → ∃ a, m = inr a ∧ k a = inr b.
Proof. destruct m as [e|a]; simpl; [discriminate | eauto]. Qed.

Ltac inv_bind H :=
  let x := fresh "x" in
  let Hx := fresh "H" x in
  apply bind_inr in H; destruct H as (x & Hx & H).

Tactic Notation "bind_inv" hyp(H) "as" ident(x) ident(Hx) :=
  apply bind_inr in H; destruct H as (x & Hx & H).

Section DictFacts.
Context {V : Type}.
Implicit Types (kvs : list (string * V)) (k : string) (v : V).

Lemma dict_of_snoc kvs k v : dict_of (kvs ++ [(k, v)]) = <[k := v]> (dict_of kvs).
Proof. unfold dict_of. by rewrite foldl_app. Qed.

Lemma dict_of_list_to_map kvs : dict_of kvs = list_to_map (reverse kvs).
Proof.
  induction kvs as [|[k v] kvs IH] using rev_ind; [done|].
  by rewrite dict_of_snoc, reverse_app, IH.
Qed.

Lemma dom_dict_of kvs : dom (dict_of kvs) = list_to_set kvs.*1.
Proof.
  rewrite dict_of_list_to_map, dom_list_to_map_L, fmap_reverse.
  apply set_eq. intros k. rewrite !elem_of_list_to_set, elem_of_reverse. done.
Qed.

Lemma dict_of_lookup_Some kvs k v : dict_of kvs !! k = Some v → (k, v) ∈ kvs.
Proof.
  rewrite dict_of_list_to_map. intros Hk%elem_of_list_to_map_2.
  by apply elem_of_reverse.
Qed.

Lemma dict_of_lookup_None kvs k : dict_of kvs !! k = None ↔ k ∉ kvs.*1.
Proof.
  rewrite dict_of_list_to_map, <- not_elem_of_list_to_map, fmap_reverse.
  by rewrite elem_of_reverse.
Qed.

Lemma dict_of_lookup_is_Some kvs k : is_Some (dict_of kvs !! k) ↔ k ∈ kvs.*1.
Proof.
  rewrite <- not_eq_None_Some, dict_of_lookup_None.
  split; [apply dec_stable | tauto].
Qed.

(** A comprehension whose value is a function of the key. *)
Lemma dict_of_keyed_lookup (f : string → V) (l : list string) k :
  dict_of ((λ a, (a, f a)) <$> l) !! k = if decide (k ∈ l) then Some (f k) else None.
Proof.
  assert (((λ a, (a, f a)) <$> l).*1 = l) as Hfst.
  { rewrite <- list_fmap_compose. apply list_fmap_id. }
  destruct (decide (k ∈ l)) as [Hin | Hnin].
  - destruct (dict_of ((λ a, (a, f a)) <$> l) !! k) as [v|] eqn:E.
    + apply dict_of_lookup_Some, list_elem_of_fmap in E as (a & [= -> ->] & _). done.
    + apply dict_of_lookup_None in E. rewrite Hfst in E. done.
  - apply dict_of_lookup_None. by rewrite Hfst.
Qed.

Lemma dom_dict_of_keyed (f : string → V) (l : list string) :
  dom (dict_of ((λ a, (a, f a)) <$> l)) = list_to_set l.
Proof.
  rewrite dom_dict_of. f_equal.
  rewrite <- list_fmap_compose. apply list_fmap_id.
Qed.

End DictFacts.

Lemma mapM_inr {A B} (f : A → result B) (l : list A) (v : list B) :
  mapM f l = inr v → Forall2 (λ x y, f x = inr y) l v.
Proof.
  revert v. induction l as [|x l IH]; simpl; intros v Hv.
  - injection Hv as <-. constructor.
  - inv_bind Hv. inv_bind Hv. injection Hv as <-. constructor; auto.
Qed.

Lemma prune_inr (t : gmap string bool) (l l' : list string) :
  prune t l = inr l' →
  l' = filter (λ a, t !! a = Some false) l ∧ Forall (λ a, is_Some (t !! a)) l.
Proof.
  revert l'. induction l as [|a l IH]; simpl; intros l' Hl'.
  - injection Hl' as <-. by split.
  - inv_bind Hl'. inv_bind Hl'. injection Hl' as <-.
    unfold dict_getitem in Hx. destruct (t !! a) as [b|] eqn:Ea; [|discriminate].
    injection Hx as ->. destruct (IH _ Hx0) as [-> Hall].
    split; [|constructor; eauto].
    destruct x.
    + rewrite filter_cons_False; [done | congruence].
    + rewrite filter_cons_True; [done | congruence].
Qed.

Lemma fill_actions_spec (action_dict : gmap string Z) (l : list string) :
  ∀ (s : nat) (actions v : list Z),
    fill_actions (zip (seq s (length l)) l) action_dict actions = inr v →
    length v = length actions ∧
    (∀ j, (j < s)%nat → v !! j = actions !! j) ∧
    (∀ i a, l !! i = Some a →
       v !! (s + i)%nat =
         match action_dict !! a with
         | Some x => Some x
         | None => actions !! (s + i)%nat
         end).
Proof.
  induction l as [|a0 l IH]; simpl; intros s actions v Hv.
  - injection Hv as <-. split_and!; [done | done | intros i a Hi; done].
  - destruct (action_dict !! a0) as [x|] eqn:Ea0.
    + inv_bind Hv. unfold np_setitem in Hx0.
      destruct (decide (s < length actions)%nat) as [Hs|]; [|discriminate].
      destruct ((int32_min <=? x) && (x <=? int32_max)); [|discriminate].
      injection Hx0 as <-.
      destruct (IH _ _ _ Hv) as (Hlen & Hlow & Hup).
      rewrite length_insert in Hlen.
      split_and!; [done | |].
      * intros j Hj. rewrite Hlow by lia. apply list_lookup_insert_ne. lia.
      * intros [|i] a Hi; simpl in Hi.
        -- injection Hi as <-. rewrite Ea0, Nat.add_0_r, Hlow by lia.
           by apply list_lookup_insert_eq.
        -- replace (s + S i)%nat with (S s + i)%nat by lia.
           rewrite (Hup _ _ Hi). destruct (action_dict !! a); [done|].
           apply list_lookup_insert_ne. lia.
    + destruct (IH _ _ _ Hv) as (Hlen & Hlow & Hup).
      split_and!; [done | intros j Hj; apply Hlow; lia |].
      intros [|i] a Hi; simpl in Hi.
      * injection Hi as <-. rewrite Ea0, Nat.add_0_r. apply Hlow. lia.
      * replace (s + S i)%nat with (S s + i)%nat by lia. by apply Hup.
Qed.

(** Keys of a comprehension over [zip(keys, values) if key in live]. *)
Lemma filter_zip_fst {A} (keys live : list string) (values : list A) :
  (length keys ≤ length values)%nat →
  live ⊆ keys →
  ∀ k, k ∈ (filter (λ '(a, _), list_in a live = true) (zip keys values)).*1 ↔ k ∈ live.
Proof.
  intros Hlen Hsub k. rewrite list_elem_of_fmap. split.
  - intros ([a x] & -> & [Hin _]%list_elem_of_filter). simpl.
    by apply bool_decide_eq_true_1 in Hin.
  - intros Hk. destruct (proj1 (list_elem_of_lookup _ _) (Hsub _ Hk)) as [i Hi].
    destruct (lookup_lt_is_Some_2 values i) as [x Hx].
    { apply lookup_lt_Some in Hi. lia. }
    exists (k, x). split; [done|]. apply list_elem_of_filter. split.
    + by apply bool_decide_eq_true_2.
    + apply list_elem_of_lookup. exists i. apply lookup_zip_with_Some. eauto.
Qed.

Lemma filter_zip_fst_live {A} (keys live : list string) (values : list A) k :
  k ∈ (filter (λ '(a, _), list_in a live = true) (zip keys values)).*1 → k ∈ live.
Proof.
  rewrite list_elem_of_fmap.
  intros ([a x] & -> & [Hin _]%list_elem_of_filter). simpl.
  by apply bool_decide_eq_true_1 in Hin.
Qed.

Lemma filter_live_keys (keys live : list string) :
  live ⊆ keys →
  ∀ k, k ∈ filter (λ a, list_in a live = true) keys ↔ k ∈ live.
Proof.
  intros Hsub k. rewrite list_elem_of_filter. unfold list_in.
  rewrite bool_decide_eq_true. split; [tauto | auto].
Qed.

Lemma filter_all {A} (P : A → Prop) `{∀ x, Decision (P x)} (l : list A) :
  Forall P l → filter P l = l.
Proof.
  induction 1 as [|x l Hx _ IH]; [done|].
  by rewrite filter_cons_True, IH.
Qed.

Lemma filter_live_self (l : list string) :
  filter (λ a, list_in a l = true) l = l.
Proof.
  apply filter_all, Forall_forall. intros a Ha. by apply bool_decide_eq_true_2.
Qed.

(** ** Facts about the adapter *)

Section AdapterFacts.
Context {emulator : ALEInterface} {host : Host}.
Implicit Types (self : ParallelAtariEnv) (action_dict : gmap string Z).

Lemma same_config_refl self : same_config self self.
Proof. by repeat split. Qed.

Lemma same_config_trans self1 self2 self3 :
  same_config self1 self2 → same_config self2 self3 → same_config self1 self3.
Proof. unfold same_config. intuition congruence. Qed.

(** [render] touches nothing but the display surface. *)
Lemma render_frame self self' log image :
  render self = inr (self', log, image) →
  same_config self self' ∧ agents self' = agents self ∧ ale self' = ale self ∧
  frame self' = frame self ∧ terminations self' = terminations self ∧
  np_random self' = np_random self.
Proof.
  unfold render. intros Hr.
  destruct (render_mode self) as [rm|] eqn:Erm.
  - inv_bind Hr. destruct (getScreenDims (ale self)) as [w h].
    destruct (String.eqb rm "human"); [|destruct (String.eqb rm "rgb_array")];
      injection Hr as <- _ _; by repeat split.
  - injection Hr as <- _ _. by repeat split.
Qed.

(** What a call of [step] that returns has computed. *)
Lemma step_inv self action_dict self' obs rews terms truncs infos :
  step self action_dict = inr (self', (obs, rews, terms, truncs, infos)) →
  ∃ (v : list Z) (n : Z) (o : list Z),
    native_actions self action_dict = inr v ∧
    frame self = Some n ∧
    _observe (set_ale (act (ale self) v).1 self) = inr o ∧
    ale self' = (act (ale self) v).1 ∧
    frame self' = Some (n + 1) ∧
    same_config self self' ∧
    truncs = dict_of ((λ agent, (agent, max_cycles self <=? n + 1)) <$> agents self) ∧
    terms =
      (if game_over (ale self')
       then dict_of ((λ agent, (agent, true)) <$> agents self)
       else dict_of ((λ '(agent, life), (agent, life <? 0)) <$>
                     filter (λ '(agent, life), list_in agent (agents self) = true)
                       (zip (possible_agents self) (allLives (ale self'))))) ∧
    obs = dict_of ((λ agent, (agent, o)) <$> agents self) ∧
    rews = dict_of (filter (λ '(agent, rew), list_in agent (agents self) = true)
                      (zip (possible_agents self) (act (ale self) v).2)) ∧
    infos = dict_of ((λ agent, (agent, ∅)) <$>
                     filter (λ agent, list_in agent (agents self) = true)
                       (possible_agents self)) ∧
    prune terms (agents self) = inr (agents self').
Proof.
  unfold step. intros Hs.
  bind_inv Hs as v Hv.
  destruct (act (ale self) v) as [a rv] eqn:Eact.
  bind_inv Hs as n1 Hn1. simpl in Hn1.
  destruct (frame self) as [n|] eqn:Efr; [|discriminate].
  injection Hn1 as <-.
  bind_inv Hs as o Ho. simpl in Hs.
  bind_inv Hs as remaining Hprune.
  bind_inv Hs as final Hfinal.
  injection Hs as -> <- <- <- <- <-.
  exists v, n, o.
  assert (same_config self self' ∧ agents self' = remaining ∧ ale self' = a ∧
          frame self' = Some (n + 1)) as (Hcfg & Hag & Hale & Hfr).
  { destruct (bool_decide _) in Hfinal.
    - bind_inv Hfinal as r Hr. destruct r as [[s1 log] img]. injection Hfinal as <-.
      apply render_frame in Hr as (Hc & ? & ? & ? & _). simpl in *.
      split; [|done]. destruct Hc as (?&?&?&?&?&?). by repeat split.
    - injection Hfinal as <-. by repeat split. }
  rewrite Hale, Hag, Eact. simpl. split_and!; done.
Qed.

Lemma getitem_nonneg {A} (l : list A) (i : Z) (x : A) :
  0 ≤ i → getitem l i = inr x → l !! Z.to_nat i = Some x.
Proof.
  unfold getitem. intros Hi.
  destruct (i <? 0) eqn:E; [apply Z.ltb_lt in E; lia|].
  destruct ((0 <=? i) && (i <? Z.of_nat (length l))); [|discriminate].
  destruct (l !! Z.to_nat i); [|discriminate]. by intros [= ->].
Qed.

(** The vector handed to the emulator, slot by slot. *)
Lemma native_actions_spec self action_dict (v : list Z) :
  native_actions self action_dict = inr v →
  length v = length (possible_agents self) ∧
  ∀ (i : nat) (a : string), possible_agents self !! i = Some a →
    ∃ code, getitem (action_mapping self) (default 0 (action_dict !! a)) = inr code ∧
            v !! i = Some code.
Proof.
  unfold native_actions, max_num_agents, np_zeros, np_take, enumerate. intros Hv.
  bind_inv Hv as actions Hfill.
  apply fill_actions_spec in Hfill as (Hlen & _ & Hslots).
  rewrite length_replicate in Hlen.
  apply mapM_inr in Hv. split.
  - apply Forall2_length in Hv. lia.
  - intros i a Hi. specialize (Hslots i a Hi). simpl in Hslots.
    assert (actions !! i = Some (default 0 (action_dict !! a))) as Hact.
    { rewrite Hslots. destruct (action_dict !! a); [done|]. simpl.
      apply lookup_replicate_2. by apply lookup_lt_Some in Hi. }
    destruct (Forall2_lookup_l _ _ _ _ _ Hv Hact) as (code & Hcode & Hget).
    eauto.
Qed.

Lemma observe_config self self' :
  obs_type self' = obs_type self → ale self' = ale self →
  _observe self' = _observe self.
Proof. unfold _observe. by intros -> ->. Qed.

Lemma observe_valid self :
  obs_type self ∈ valid_obs_types → ∃ o, _observe self = inr o.
Proof.
  unfold valid_obs_types, _observe. intros Hin.
  repeat (apply elem_of_cons in Hin as [-> | Hin]); simpl; eauto.
  by apply elem_of_nil in Hin.
Qed.

(** What a call of [_seed] that returns has done: the seed was not
    negative, and the adapter holds the new generator and the reseeded
    emulator. *)
Lemma seed_inv self seed entropy self1 :
  _seed seed entropy self = inr self1 →
  (∀ s, seed = Some s → 0 ≤ s) ∧
  self1 =
    set_ale
      (setMode (mode self)
         (loadROM (rom_path self)
            (setInt "random_seed" (default entropy seed) (ale self))))
      (set_np_random (default entropy seed) self).
Proof.
  unfold _seed, seeding_np_random. destruct seed as [s|]; simpl.
  - destruct (s <? 0) eqn:Es; simpl; [discriminate|].
    intros [= <-]. split; [|done]. intros s' [= <-]. by apply Z.ltb_ge.
  - intros [= <-]. split; [|done]. by intros s' [=].
Qed.

Lemma seed_returns self seed entropy :
  (∀ s, seed = Some s → 0 ≤ s) → ∃ self1, _seed seed entropy self = inr self1.
Proof.
  unfold _seed, seeding_np_random. intros Hseed. destruct seed as [s|]; simpl.
  - specialize (Hseed s eq_refl). apply Z.ltb_ge in Hseed. rewrite Hseed.
    simpl. eauto.
  - eauto.
Qed.

Lemma seed_negative self (s : Z) entropy :
  s < 0 → _seed (Some s) entropy self = inl GymnasiumError.
Proof.
  unfold _seed, seeding_np_random. intros Hs%Z.ltb_lt. by rewrite Hs.
Qed.

(** What a call of [reset] that returns has computed. *)
Lemma reset_inv self seed entropy self0 observations infos :
  reset self seed entropy = inr (self0, (observations, infos)) →
  same_config self self0 ∧
  agents self0 = possible_agents self ∧
  frame self0 = Some 0 ∧
  terminations self0 =
    Some (dict_of ((λ agent, (agent, false)) <$> possible_agents self)) ∧
  (∃ o, _observe self0 = inr o ∧
        observations = dict_of ((λ agent, (agent, o)) <$> possible_agents self)) ∧
  infos = dict_of ((λ agent, (agent, ∅)) <$>
                   filter (λ agent, list_in agent (possible_agents self) = true)
                     (possible_agents self)).
Proof.
  unfold reset. intros Hr. bind_inv Hr as self1 Hseed. bind_inv Hr as o Ho.
  injection Hr as <- <- <-.
  destruct seed as [s|].
  - apply seed_inv in Hseed as [_ ->]. simpl in *.
    split_and!; [by repeat split | done ..| eauto | done].
  - simpl in Hseed. injection Hseed as <-. simpl in *.
    split_and!; [by repeat split | done ..| eauto | done].
Qed.

Lemma step_same_config self action_dict self' out :
  step self action_dict = inr (self', out) → same_config self self'.
Proof.
  destruct out as [[[[obs rews] terms] truncs] infos].
  intros Hs. apply step_inv in Hs as (v & n & o & Hs). tauto.
Qed.

Lemma step_agents self action_dict self' obs rews terms truncs infos :
  step self action_dict = inr (self', (obs, rews, terms, truncs, infos)) →
  agents self' = filter (λ a, terms !! a = Some false) (agents self) ∧
  Forall (λ a, is_Some (terms !! a)) (agents self).
Proof.
  intros Hs. apply step_inv in Hs as (v & n & o & Hs).
  destruct Hs as (_ & _ & _ & _ & _ & _ & _ & _ & _ & _ & _ & Hprune).
  by apply prune_inr.
Qed.

Lemma step_sublist self action_dict self' out :
  step self action_dict = inr (self', out) → agents self' `sublist_of` agents self.
Proof.
  destruct out as [[[[obs rews] terms] truncs] infos].
  intros [-> _]%step_agents. apply sublist_filter.
Qed.

Lemma after_steps_same_config self0 k self :
  after_steps self0 k self → same_config self0 self.
Proof.
  induction 1 as [|k self ad self' out _ IH Hs].
  - apply same_config_refl.
  - eapply same_config_trans; [exact IH|]. eapply step_same_config, Hs.
Qed.

Lemma after_steps_sublist self0 k self :
  after_steps self0 k self → agents self `sublist_of` agents self0.
Proof.
  induction 1 as [|k self ad self' out _ IH Hs]; [done|].
  etrans; [|exact IH]. eapply step_sublist, Hs.
Qed.

Lemma after_steps_frame self0 k self (n : Z) :
  frame self0 = Some n → after_steps self0 k self → frame self = Some (n + Z.of_nat k).
Proof.
  intros Hstart. induction 1 as [|k self ad self' out _ IH Hs].
  - rewrite Hstart. f_equal. lia.
  - destruct out as [[[[obs rews] terms] truncs] infos].
    apply step_inv in Hs as (v & m & o & _ & Hm & _ & _ & Hfr & _).
    rewrite IH in Hm. injection Hm as <-. rewrite Hfr. f_equal. lia.
Qed.

(** The keys of the termination mapping of a step. *)
Lemma terminations_keys self action_dict self' obs rews terms truncs infos :
  step self action_dict = inr (self', (obs, rews, terms, truncs, infos)) →
  ∀ a, is_Some (terms !! a) ↔ a ∈ agents self.
Proof.
  intros Hs a. pose proof (step_agents _ _ _ _ _ _ _ _ Hs) as [_ Hall].
  rewrite Forall_forall in Hall.
  split; [|by auto].
  apply step_inv in Hs as (v & n & o & Hs).
  destruct Hs as (_ & _ & _ & _ & _ & _ & _ & -> & _).
  destruct (game_over (ale self')).
  - rewrite dict_of_keyed_lookup. case_decide; [done | by intros []].
  - rewrite dict_of_lookup_is_Some, <- list_fmap_compose.
    intros ([a' life] & -> & [Hin _]%list_elem_of_filter)%list_elem_of_fmap.
    simpl. by apply bool_decide_eq_true_1 in Hin.
Qed.

End AdapterFacts.

(** ** The session contract of [step], [reset] and [render] *)

Section Session.
Context {emulator : ALEInterface} {host : Host}.
Implicit Types (self : ParallelAtariEnv) (action_dict : gmap string Z).

(** C1.  Every dictionary a call of [step] returns (observations,
    rewards, terminations, truncations, infos) has as its keys exactly the
    agents that were active when the call began, for an adapter whose
    active agents are among its possible agents and an emulator that
    answers [act] with one reward per slot.  The active list is filtered
    by the termination flags only after these dictionaries are built: an
    agent whose flag is true in this step is a key of all five, and is no
    longer active in the state the step leaves behind; a next action
    dictionary keyed by the agents still active therefore has no entry
    for it, and its slot of the next action vector gets the default
    index zero. *)
Theorem step_reports_pre_prune_agents
    self action_dict self' obs rews terms truncs infos :
  agents self ⊆ possible_agents self →
  one_reward_per_slot →
  step self action_dict = inr (self', (obs, rews, terms, truncs, infos)) →
  dom obs = list_to_set (agents self) ∧
  dom rews = list_to_set (agents self) ∧
  dom terms = list_to_set (agents self) ∧
  dom truncs = list_to_set (agents self) ∧
  dom infos = list_to_set (agents self) ∧
  agents self' = filter (λ a, terms !! a = Some false) (agents self) ∧
  ∀ a, a ∈ agents self → terms !! a = Some true →
    a ∈ dom obs ∧ a ∈ dom rews ∧ a ∈ dom terms ∧ a ∈ dom truncs ∧
    a ∈ dom infos ∧ (a ∉ agents self') ∧
    (∀ action_dict' (v' : list Z) (i : nat),
       dom action_dict' ⊆ list_to_set (agents self') →
       native_actions self' action_dict' = inr v' →
       possible_agents self' !! i = Some a →
       ∃ code, getitem (action_mapping self') 0 = inr code ∧ v' !! i = Some code).
Proof.
  intros Hsub Hact Hs.
  pose proof (terminations_keys _ _ _ _ _ _ _ _ Hs) as Hkeys.
  pose proof (step_agents _ _ _ _ _ _ _ _ Hs) as [Hag _].
  apply step_inv in Hs as (v & n & o & Hs).
  destruct Hs as (Hv & _ & _ & _ & _ & _ & Htr & _ & Hobs & Hrews & Hinfos & _).
  apply native_actions_spec in Hv as [Hlen _].
  assert (dom obs = list_to_set (agents self)) as Hd1.
  { rewrite Hobs. apply dom_dict_of_keyed. }
  assert (dom rews = list_to_set (agents self)) as Hd2.
  { rewrite Hrews, dom_dict_of. apply set_eq. intros k.
    rewrite !elem_of_list_to_set. apply filter_zip_fst; [|done].
    rewrite Hact, Hlen. done. }
  assert (dom terms = list_to_set (agents self)) as Hd3.
  { apply set_eq. intros k. by rewrite elem_of_dom, elem_of_list_to_set. }
  assert (dom truncs = list_to_set (agents self)) as Hd4.
  { rewrite Htr. apply dom_dict_of_keyed. }
  assert (dom infos = list_to_set (agents self)) as Hd5.
  { rewrite Hinfos, dom_dict_of_keyed. apply set_eq. intros k.
    rewrite !elem_of_list_to_set. by apply filter_live_keys. }
  split_and!; try done.
  intros a Ha Hterm. rewrite Hd1, Hd2, Hd3, Hd4, Hd5, !elem_of_list_to_set.
  assert (a ∉ agents self') as Hgone.
  { rewrite Hag, list_elem_of_filter. intros [Hfalse _]. congruence. }
  split_and!; try done.
  intros ad' v' i Hdom Hv' Hi.
  apply native_actions_spec in Hv' as [_ Hslots].
  destruct (Hslots i a Hi) as (code & Hcode & Hvi).
  assert (ad' !! a = None) as Hnone.
  { apply not_elem_of_dom. intros Hin. apply Hgone.
    apply Hdom in Hin. by apply elem_of_list_to_set in Hin. }
  rewrite Hnone in Hcode. eauto.
Qed.

(** C2.  In a call of [step] that returns, with the possible agents
    pairwise distinct: when the emulator (in the state the step leaves it
    in, which is the one the adapter queries) reports game over, every
    active agent's termination flag is true; otherwise the flag of the
    active agent in slot [i] is true exactly when the [i]-th life count
    is negative; and an agent that is not active has no entry in the
    terminations mapping. *)
Theorem step_terminations self action_dict self' obs rews terms truncs infos :
  NoDup (possible_agents self) →
  step self action_dict = inr (self', (obs, rews, terms, truncs, infos)) →
  (game_over (ale self') = true →
     ∀ a, a ∈ agents self → terms !! a = Some true) ∧
  (game_over (ale self') = false →
     ∀ (i : nat) a, possible_agents self !! i = Some a → a ∈ agents self →
       ∃ life t, allLives (ale self') !! i = Some life ∧
                 terms !! a = Some t ∧ (t = true ↔ life < 0)) ∧
  (∀ a, a ∉ agents self → terms !! a = None).
Proof.
  intros Hnd Hs.
  pose proof (terminations_keys _ _ _ _ _ _ _ _ Hs) as Hkeys.
  apply step_inv in Hs as (v & n & o & Hs).
  destruct Hs as (_ & _ & _ & _ & _ & _ & _ & Hterms & _).
  split_and!.
  - intros Hover a Ha. rewrite Hterms, Hover, dict_of_keyed_lookup.
    by rewrite decide_True.
  - intros Hover i a Hi Ha.
    destruct (proj2 (Hkeys a) Ha) as [t Ht].
    pose proof Ht as Ht'. rewrite Hterms, Hover in Ht'.
    apply dict_of_lookup_Some, list_elem_of_fmap in Ht'
      as ([a' life] & [= <- ->] & [_ Hzip]%list_elem_of_filter).
    apply list_elem_of_lookup in Hzip as [j Hj].
    apply lookup_zip_with_Some in Hj as (a'' & life' & [= <- <-] & Hja & Hjl).
    rewrite (NoDup_lookup _ _ _ _ Hnd Hi Hja).
    exists life, (life <? 0). split_and!; [done | done |].
    apply Z.ltb_lt.
  - intros a Ha. apply eq_None_not_Some. by rewrite Hkeys.
Qed.

(** C3.  In an episode started by [reset] on an adapter configured with
    [max_cycles = N], the call of [step] that follows [k] earlier calls
    (the episode's step number [k + 1]) leaves the frame counter at
    [k + 1] and gives every active agent the truncation flag
    [N <= k + 1]: false on steps 1 to [N - 1], true on step [N]. *)
Theorem truncation_fires_at_max_cycles
    self seed entropy self0 out0 (k : nat) selfk action_dict self'
    obs rews terms truncs infos :
  reset self seed entropy = inr (self0, out0) →
  after_steps self0 k selfk →
  step selfk action_dict = inr (self', (obs, rews, terms, truncs, infos)) →
  frame self' = Some (Z.of_nat (S k)) ∧
  ∀ a, a ∈ agents selfk →
    truncs !! a = Some (max_cycles self <=? Z.of_nat (S k)) ∧
    (Z.of_nat (S k) < max_cycles self → truncs !! a = Some false) ∧
    (Z.of_nat (S k) = max_cycles self → truncs !! a = Some true).
Proof.
  intros Hr Hk Hs. destruct out0 as [obs0 infos0].
  apply reset_inv in Hr as ((_ & Hmax0 & _) & _ & Hfr0 & _).
  pose proof (after_steps_frame _ _ _ _ Hfr0 Hk) as Hfrk.
  pose proof (after_steps_same_config _ _ _ Hk) as (_ & Hmaxk & _).
  apply step_inv in Hs as (v & n & o & Hs).
  destruct Hs as (_ & Hn & _ & _ & Hfr' & _ & Htr & _).
  rewrite Hfrk in Hn. injection Hn as <-.
  replace (0 + Z.of_nat k + 1) with (Z.of_nat (S k)) in * by lia.
  split; [done|]. intros a Ha.
  assert (truncs !! a = Some (max_cycles self <=? Z.of_nat (S k))) as Hta.
  { rewrite Htr, dict_of_keyed_lookup, decide_True by done.
    by rewrite Hmaxk, Hmax0. }
  rewrite Hta. split_and!; [done | |]; intros Hlt; f_equal.
  - apply Z.leb_gt. lia.
  - apply Z.leb_le. lia.
Qed.

(** C4.  A call of [step] leaves the active agents a sublist of what they
    were, and an agent that is not active after a step stays out for as
    long as only [step] is called: it is not active after any number of
    further steps, and it has no entry in the rewards or terminations of
    any of them. *)
Theorem active_agents_never_return self action_dict self1 out1 :
  step self action_dict = inr (self1, out1) →
  agents self1 `sublist_of` agents self ∧
  ∀ a (k : nat) self2, a ∉ agents self1 → after_steps self1 k self2 →
    (a ∉ agents self2) ∧
    (∀ action_dict2 self3 obs rews terms truncs infos,
       step self2 action_dict2 = inr (self3, (obs, rews, terms, truncs, infos)) →
       rews !! a = None ∧ terms !! a = None ∧ a ∉ agents self3).
Proof.
  intros Hs. split; [eapply step_sublist, Hs|].
  intros a k self2 Ha Hk.
  assert (a ∉ agents self2) as Ha2.
  { intros Hin. apply Ha. eapply sublist_subseteq; [|exact Hin].
    eapply after_steps_sublist, Hk. }
  split; [done|]. intros ad2 self3 obs rews terms truncs infos Hs2.
  split_and!.
  - apply step_inv in Hs2 as (v & n & o & Hs2).
    destruct Hs2 as (_ & _ & _ & _ & _ & _ & _ & _ & _ & -> & _).
    apply dict_of_lookup_None. intros Hin. apply Ha2.
    eapply filter_zip_fst_live, Hin.
  - apply eq_None_not_Some.
    by rewrite (terminations_keys _ _ _ _ _ _ _ _ Hs2).
  - intros Hin. apply Ha2. eapply sublist_subseteq; [|exact Hin].
    eapply step_sublist, Hs2.
Qed.

(** C5.  After a call of [reset] that returns: the active agents are the
    possible agents (the same list, hence the same set), the frame
    counter is zero, [self.terminations] maps every possible agent to
    false, the returned observations map every active agent to one and
    the same value (what [_observe] reads from the freshly reset
    emulator), and the returned infos map every active agent to an empty
    dictionary; neither mapping has any other key. *)
Theorem reset_postcondition self seed entropy self0 observations infos :
  reset self seed entropy = inr (self0, (observations, infos)) →
  possible_agents self0 = possible_agents self ∧
  agents self0 = possible_agents self0 ∧
  (list_to_set (agents self0) : gset string) = list_to_set (possible_agents self0) ∧
  frame self0 = Some 0 ∧
  (∃ flags, terminations self0 = Some flags ∧
      ∀ a, flags !! a = if decide (a ∈ possible_agents self0) then Some false else None) ∧
  (∃ o, _observe self0 = inr o ∧
      ∀ a, observations !! a = if decide (a ∈ agents self0) then Some o else None) ∧
  (∀ a, infos !! a = if decide (a ∈ agents self0) then Some ∅ else None).
Proof.
  intros Hr.
  apply reset_inv in Hr as (Hcfg & Hag & Hfr & Hterm & (o & Ho & Hobs) & Hinfos).
  destruct Hcfg as (_ & _ & Hposs & _).
  rewrite Hag, Hposs. split_and!; try done.
  - eexists. split; [exact Hterm|]. intros a. apply dict_of_keyed_lookup.
  - exists o. split; [done|]. intros a. rewrite Hobs. apply dict_of_keyed_lookup.
  - intros a. rewrite Hinfos, filter_live_self.
    exact (dict_of_keyed_lookup (λ _, ∅) (possible_agents self) a).
Qed.


(** C9.  With no render mode configured, [render] returns normally: it
    logs the one warning, returns no frame, and leaves the adapter state
    (the emulator handle included) as it was. *)
Theorem render_without_mode self :
  render_mode self = None →
  render self = inr (self, [render_warning], None).
Proof. unfold render. by intros ->. Qed.

(** C10.  The active agents after a step are the previously active agents
    whose termination flag is false; the truncation flags play no part.
    In particular, after a step in which every active agent is truncated
    and none is terminated, the active agents are unchanged. *)
Theorem truncation_does_not_prune
    self action_dict self' obs rews terms truncs infos :
  step self action_dict = inr (self', (obs, rews, terms, truncs, infos)) →
  agents self' = filter (λ a, terms !! a = Some false) (agents self) ∧
  ((∀ a, a ∈ agents self → truncs !! a = Some true) →
   (∀ a, a ∈ agents self → terms !! a = Some false) →
   agents self' = agents self).
Proof.
  intros [Hag _]%step_agents. split; [done|].
  intros _ Hterm. rewrite Hag.
  apply filter_all, Forall_forall. done.
Qed.

End Session.

(** ** Construction *)

Section Construction.
Context {emulator : ALEInterface} {host : Host}.

Lemma find_rom_missing game auto_rom_install_path :
  Forall (λ p, exists_ p = false) (rom_candidates game auto_rom_install_path) →
  find_rom game auto_rom_install_path = inl (OSError (rom_error game)).
Proof.
  unfold rom_candidates, find_rom. intros Hall.
  apply Forall_cons in Hall as [H1 Hall].
  apply Forall_cons in Hall as [H2 Hall].
  apply Forall_cons in Hall as [H3 _].
  rewrite H1. simpl. rewrite H2. simpl. rewrite H3. done.
Qed.

Lemma agent_names_prefix (n : Z) (l : list string) :
  mapM (λ n, let* p := getitem player_names n in ret (p +:+ "_0")) (range n) = inr l →
  l = take (Z.to_nat n) all_agent_names.
Proof.
  unfold range. generalize (Z.to_nat n) as k. intros k Hl.
  do 5 (destruct k as [|k]; [by injection Hl as <-|]).
  discriminate Hl.
Qed.

Lemma all_agent_names_NoDup : NoDup all_agent_names.
Proof. apply (bool_decide_unpack _). by vm_compute. Qed.

(** What a constructed adapter looks like. *)
Lemma init_inv game players mode_num seed kind full env_name cycles rmode
    auto_rom_install_path entropy self :
  __init__ game players mode_num seed kind full env_name cycles rmode
    auto_rom_install_path entropy = inr self →
  obs_type self ∈ valid_obs_types ∧
  max_cycles self = cycles ∧
  render_mode self = rmode ∧
  agents self = possible_agents self ∧
  possible_agents self = take (Z.to_nat players) all_agent_names ∧
  NoDup (possible_agents self) ∧
  frame self = None.
Proof.
  unfold __init__. intros Hi.
  bind_inv Hi as u Hobs. unfold assert in Hobs.
  destruct (bool_decide _) eqn:Eobs in Hobs; [|discriminate].
  apply bool_decide_eq_true_1 in Eobs.
  bind_inv Hi as final Hfinal.
  bind_inv Hi as m Hm.
  bind_inv Hi as u' Hplayers.
  destruct (if full then _ else _) as [action_size mapping].
  bind_inv Hi as space Hspace.
  bind_inv Hi as names Hnames.
  apply agent_names_prefix in Hnames as ->.
  apply seed_inv in Hi as [_ ->].
  assert (NoDup (take (Z.to_nat players) all_agent_names)) as Hnd.
  { eapply sublist_NoDup; [apply all_agent_names_NoDup | apply sublist_take]. }
  destruct seed; simpl; split_and!; done.
Qed.

(** C7 (as amended).  When the observation kind is one of the three the
    constructor accepts and none of the three candidate files exists
    ([{game}.bin] under the search root, under its [roms] directory, and
    under its [ROM/{game}] directory), construction raises OSError with
    the "rom ... is not installed" message. *)
Theorem rom_not_found game players mode_num seed kind full env_name cycles rmode
    auto_rom_install_path entropy :
  kind ∈ valid_obs_types →
  Forall (λ p, exists_ p = false) (rom_candidates game auto_rom_install_path) →
  __init__ game players mode_num seed kind full env_name cycles rmode
    auto_rom_install_path entropy = inl (OSError (rom_error game)).
Proof.
  intros Hkind Hmissing. unfold __init__, assert.
  rewrite bool_decide_eq_true_2 by exact Hkind.
  unfold bind at 1. unfold ret at 1.
  by rewrite (find_rom_missing _ _ Hmissing).
Qed.

(** The two configuration assertions.  Once a ROM file has been found
    and loaded, construction raises
    AssertionError when an explicitly requested mode is not among the
    modes the emulator lists for the requested player count, and also
    when the mode the constructor selects (the requested one, or else the
    first listed one) makes the emulator report a number of active
    players other than the requested count.  The exception leaves
    [__init__] at once: no adapter is returned.  With a valid observation
    kind the assertion that fails is the mode check (with its message) or
    the player-count check (which has none). *)
Theorem bad_configuration_fails game players mode_num seed kind full env_name
    cycles rmode auto_rom_install_path entropy final :
  find_rom game auto_rom_install_path = inr final →
  let a := loadROM (path_str final)
             (setFloat "repeat_action_probability" 0 ALEInterface_new) in
  let all_modes := getAvailableModes a players in
  (∃ m, mode_num = Some m ∧ m ∉ all_modes) ∨
  (∃ m, (mode_num = Some m ∨ (mode_num = None ∧ getitem all_modes 0 = inr m)) ∧
        players ≠ numPlayersActive (setMode m a)) →
  ∃ msg,
    __init__ game players mode_num seed kind full env_name cycles rmode
      auto_rom_install_path entropy = inl (AssertionError msg) ∧
    (kind ∈ valid_obs_types →
     (∃ m, mode_num = Some m ∧ msg = mode_error m all_modes) ∨ msg = "").
Proof.
  intros Hfinal a all_modes Hbad. unfold __init__, assert.
  destruct (bool_decide (kind ∈ _)) eqn:Ekind.
  2:{ exists obs_type_error. split; [done|].
      intros Hk. apply bool_decide_eq_false_1 in Ekind. by destruct Ekind. }
  unfold bind at 1. unfold ret at 1. rewrite Hfinal. unfold bind at 1.
  fold a. fold all_modes.
  destruct Hbad as [(m & -> & Hm) | (m & Hsel & Hne)].
  - exists (mode_error m all_modes). rewrite bool_decide_eq_false_2 by done.
    split; [done|]. eauto.
  - destruct Hsel as [-> | [-> Hfirst]].
    + destruct (decide (m ∈ all_modes)) as [Hin | Hnin].
      * exists "". rewrite bool_decide_eq_true_2 by done.
        unfold bind at 2. unfold ret at 1. unfold bind at 1. unfold ret at 1.
        rewrite bool_decide_eq_false_2 by done. split; [done|]. eauto.
      * exists (mode_error m all_modes). rewrite bool_decide_eq_false_2 by done.
        split; [done|]. eauto.
    + exists "". rewrite Hfirst. unfold bind at 1.
      rewrite bool_decide_eq_false_2 by done. split; [done|]. eauto.
Qed.

(** With no mode requested and no mode listed for the player count, the
    constructor fails on [all_modes[0]] before either assertion. *)
Lemma no_mode_available game players seed kind full env_name cycles rmode
    auto_rom_install_path entropy final :
  kind ∈ valid_obs_types →
  find_rom game auto_rom_install_path = inr final →
  getAvailableModes
    (loadROM (path_str final)
       (setFloat "repeat_action_probability" 0 ALEInterface_new)) players = [] →
  __init__ game players None seed kind full env_name cycles rmode
    auto_rom_install_path entropy = inl IndexError.
Proof.
  intros Hkind Hfinal Hmodes. unfold __init__, assert.
  rewrite bool_decide_eq_true_2 by exact Hkind.
  unfold bind at 1. unfold ret at 1. rewrite Hfinal. unfold bind at 1.
  by rewrite Hmodes.
Qed.

(** C8.  The case the configuration assertions miss.  With a valid
    observation kind and the ROM found, when the emulator lists no mode
    for the requested player count (the count is not supported) and no
    mode was requested, construction raises IndexError at
    [all_modes[0]]: neither assertion is reached.  For the same player
    count with any mode requested explicitly, the mode assertion fails
    with its message. *)
Theorem unsupported_player_count_without_mode game players seed kind full
    env_name cycles rmode auto_rom_install_path entropy final :
  kind ∈ valid_obs_types →
  find_rom game auto_rom_install_path = inr final →
  getAvailableModes
    (loadROM (path_str final)
       (setFloat "repeat_action_probability" 0 ALEInterface_new)) players = [] →
  __init__ game players None seed kind full env_name cycles rmode
    auto_rom_install_path entropy = inl IndexError ∧
  ∀ m, __init__ game players (Some m) seed kind full env_name cycles rmode
         auto_rom_install_path entropy = inl (AssertionError (mode_error m [])).
Proof.
  intros Hkind Hfinal Hmodes. split; [by eapply no_mode_available|].
  intros m. unfold __init__, assert.
  rewrite bool_decide_eq_true_2 by exact Hkind.
  unfold bind at 1. unfold ret at 1. rewrite Hfinal. unfold bind at 1.
  rewrite Hmodes. rewrite bool_decide_eq_false_2 by apply not_elem_of_nil.
  done.
Qed.

(** The states of an episode keep the shape the theorems about [step]
    rely on: the possible agents are pairwise distinct and the active
    agents are a sublist of them. *)
Lemma episode_well_formed game players mode_num seed kind full env_name cycles
    rmode auto_rom_install_path entropy made seed' entropy' self0 out0 k self :
  __init__ game players mode_num seed kind full env_name cycles rmode
    auto_rom_install_path entropy = inr made →
  reset made seed' entropy' = inr (self0, out0) →
  after_steps self0 k self →
  NoDup (possible_agents self) ∧
  agents self `sublist_of` possible_agents self ∧
  obs_type self ∈ valid_obs_types.
Proof.
  intros Hmade Hr Hk. destruct out0 as [obs0 infos0].
  apply init_inv in Hmade as (Hkind & _ & _ & _ & _ & Hnd & _).
  apply reset_inv in Hr as ((Hk0 & _ & Hp0 & _) & Hag0 & _).
  pose proof (after_steps_same_config _ _ _ Hk) as (Hkk & _ & Hpk & _).
  pose proof (after_steps_sublist _ _ _ Hk) as Hsub.
  rewrite Hpk, Hkk, Hp0, Hk0. rewrite Hag0 in Hsub. done.
Qed.

End Construction.

(** ** More about construction *)

Section ConstructionFacts.
Context {emulator : ALEInterface} {host : Host}.

Lemma agent_names_bound (n : Z) (l : list string) :
  mapM (λ n, let* p := getitem player_names n in ret (p +:+ "_0")) (range n) = inr l →
  n ≤ 4.
Proof.
  unfold range. intros Hl.
  destruct (decide (Z.to_nat n ≤ 4)%nat) as [|Hbig]; [lia|].
  exfalso. revert Hl. generalize (Z.to_nat n) Hbig. intros k Hk Hl.
  do 5 (destruct k as [|k]; [lia|]).
  discriminate Hl.
Qed.

(** Everything a successful construction has fixed. *)
Lemma init_inv_full game players mode_num seed kind full env_name cycles rmode
    auto_rom_install_path entropy self :
  __init__ game players mode_num seed kind full env_name cycles rmode
    auto_rom_install_path entropy = inr self →
  ∃ final m,
    find_rom game auto_rom_install_path = inr final ∧
    (mode_num = Some m ∨
     (mode_num = None ∧
      getitem (getAvailableModes
                 (loadROM (path_str final)
                    (setFloat "repeat_action_probability" 0 ALEInterface_new))
                 players) 0 = inr m)) ∧
    m ∈ getAvailableModes
          (loadROM (path_str final)
             (setFloat "repeat_action_probability" 0 ALEInterface_new)) players ∧
    let a := setMode m
               (loadROM (path_str final)
                  (setFloat "repeat_action_probability" 0 ALEInterface_new)) in
    players = numPlayersActive a ∧
    rom_path self = path_str final ∧
    mode self = m ∧
    num_players self = players ∧
    full_action_space self = full ∧
    action_mapping self = (if full then np_arange 18 else getMinimalActionSet a) ∧
    action_spaces self =
      dict_of ((λ agent, (agent, if full then 18
                                 else Z.of_nat (length (getMinimalActionSet a))))
               <$> possible_agents self) ∧
    observation_spaces self =
      dict_of ((λ agent,
                  (agent,
                   if String.eqb kind "ram" then [128]
                   else [(getScreenDims a).2; (getScreenDims a).1;
                         if String.eqb kind "rgb_image" then 3 else 1]))
               <$> possible_agents self) ∧
    metadata self =
      {| render_modes := ["human"; "rgb_array"];
         name := match env_name with
                 | None => "custom_" +:+ game
                 | Some n => n
                 end;
         render_fps := 60 |} ∧
    _screen self = None ∧
    terminations self = None ∧
    np_random self = default entropy seed ∧
    ale self = setMode m (loadROM (path_str final)
                 (setInt "random_seed" (default entropy seed) a)) ∧
    (∀ s, seed = Some s → 0 ≤ s).
Proof.
  unfold __init__. intros Hi.
  bind_inv Hi as u Hobs. unfold assert in Hobs.
  destruct (bool_decide _) eqn:Eobs in Hobs; [|discriminate].
  apply bool_decide_eq_true_1 in Eobs.
  bind_inv Hi as final Hfinal.
  bind_inv Hi as m Hm.
  bind_inv Hi as u' Hplayers. unfold assert in Hplayers.
  destruct (bool_decide (players = _)) eqn:Eplayers in Hplayers; [|discriminate].
  apply bool_decide_eq_true_1 in Eplayers.
  exists final, m.
  assert ((mode_num = Some m ∨
           (mode_num = None ∧
            getitem (getAvailableModes
                       (loadROM (path_str final)
                          (setFloat "repeat_action_probability" 0 ALEInterface_new))
                       players) 0 = inr m)) ∧
          m ∈ getAvailableModes
                (loadROM (path_str final)
                   (setFloat "repeat_action_probability" 0 ALEInterface_new))
                players) as [Hsel Hin].
  { destruct mode_num as [m'|].
    - bind_inv Hm as u'' Hmode. injection Hm as ->. unfold assert in Hmode.
      destruct (bool_decide (m ∈ _)) eqn:Em in Hmode; [|discriminate].
      apply bool_decide_eq_true_1 in Em. auto.
    - split; [auto|]. apply getitem_nonneg in Hm; [|lia].
      eapply list_elem_of_lookup_2, Hm. }
  assert (∃ space,
            (if String.eqb kind "ram" then ret [128]
             else let '(screen_width, screen_height) :=
                    getScreenDims
                      (setMode m
                         (loadROM (path_str final)
                            (setFloat "repeat_action_probability" 0
                               ALEInterface_new))) in
                  let* num_channels :=
                    if String.eqb kind "rgb_image" then ret 3
                    else if String.eqb kind "grayscale_image" then ret 1
                    else raise (UnboundLocalError "num_channels") in
                  ret [screen_height; screen_width; num_channels]) = inr space ∧
            space = (if String.eqb kind "ram" then [128]
                     else [(getScreenDims
                              (setMode m
                                 (loadROM (path_str final)
                                    (setFloat "repeat_action_probability" 0
                                       ALEInterface_new)))).2;
                           (getScreenDims
                              (setMode m
                                 (loadROM (path_str final)
                                    (setFloat "repeat_action_probability" 0
                                       ALEInterface_new)))).1;
                           if String.eqb kind "rgb_image" then 3 else 1]))
    as (space & Hspace & Hshape).
  { repeat (apply elem_of_cons in Eobs as [-> | Eobs]); simpl;
      try (destruct (getScreenDims _) as [w h]; simpl); eauto.
    by apply elem_of_nil in Eobs. }
  destruct full; simpl in Hi.
  - rewrite Hspace in Hi. simpl in Hi. bind_inv Hi as names Hnames.
    apply seed_inv in Hi as [Hseed ->]. rewrite <- Hshape.
    simpl. split_and!; done.
  - rewrite Hspace in Hi. simpl in Hi. bind_inv Hi as names Hnames.
    apply seed_inv in Hi as [Hseed ->]. rewrite <- Hshape.
    simpl. split_and!; done.
Qed.

Lemma init_players_bound game players mode_num seed kind full env_name cycles
    rmode auto_rom_install_path entropy self :
  __init__ game players mode_num seed kind full env_name cycles rmode
    auto_rom_install_path entropy = inr self →
  players ≤ 4.
Proof.
  unfold __init__. intros Hi.
  bind_inv Hi as u Hobs. bind_inv Hi as final Hfinal. bind_inv Hi as m Hm.
  bind_inv Hi as u' Hplayers.
  destruct (if full then _ else _) as [action_size mapping].
  bind_inv Hi as space Hspace. bind_inv Hi as names Hnames.
  by apply agent_names_bound in Hnames.
Qed.

Lemma find_rom_first game auto_rom_install_path :
  find_rom game auto_rom_install_path =
    match list_find (λ p, exists_ p = true)
            (rom_candidates game auto_rom_install_path) with
    | Some (_, final) => inr final
    | None => inl (OSError (rom_error game))
    end.
Proof.
  unfold find_rom, rom_candidates.
  set (start := match auto_rom_install_path with
                | Some p => resolve p
                | None => package_dir
                end).
  set (p1 := joinpath start (game +:+ ".bin")).
  set (p2 := joinpath (joinpath start "roms") (game +:+ ".bin")).
  set (p3 := joinpath (joinpath (joinpath start "ROM") game) (game +:+ ".bin")).
  cbn [list_find].
  destruct (exists_ p1) eqn:E1; simpl.
  { rewrite ?E1. simpl. by rewrite ?E1. }
  destruct (exists_ p2) eqn:E2; simpl.
  { rewrite ?E2. simpl. by rewrite ?E2. }
  destruct (exists_ p3) eqn:E3; simpl; by rewrite ?E3.
Qed.

(** A constructed adapter has at most four agents: the first
    [num_players] of the four role names, pairwise distinct, all of them
    active. *)
Theorem constructed_roster game players mode_num seed kind full env_name cycles
    rmode auto_rom_install_path entropy self :
  __init__ game players mode_num seed kind full env_name cycles rmode
    auto_rom_install_path entropy = inr self →
  players ≤ 4 ∧
  possible_agents self = take (Z.to_nat players) all_agent_names ∧
  Z.of_nat (length (possible_agents self)) = Z.max 0 players ∧
  NoDup (possible_agents self) ∧
  agents self = possible_agents self.
Proof.
  intros Hi. pose proof (init_players_bound _ _ _ _ _ _ _ _ _ _ _ _ Hi) as Hle.
  apply init_inv in Hi as (_ & _ & _ & Hag & Hposs & Hnd & _).
  split_and!; try done.
  rewrite Hposs, length_take. unfold all_agent_names. simpl. lia.
Qed.

(** With more than four players requested, construction cannot succeed,
    whatever the emulator and the host answer. *)
Theorem too_many_players game players mode_num seed kind full env_name cycles
    rmode auto_rom_install_path entropy :
  4 < players →
  ∃ e, __init__ game players mode_num seed kind full env_name cycles rmode
         auto_rom_install_path entropy = inl e.
Proof.
  intros Hbig.
  destruct (__init__ game players mode_num seed kind full env_name cycles rmode
              auto_rom_install_path entropy) as [e|self] eqn:Hi; [eauto|].
  apply init_players_bound in Hi. lia.
Qed.

(** A construction that succeeds was given a valid configuration: the
    observation kind is one of the three, the mode it runs in is one the
    emulator lists for the requested player count (the requested mode if
    there was one), and under that mode the emulator reports exactly the
    requested number of players. *)
Theorem constructed_configuration_valid game players mode_num seed kind full
    env_name cycles rmode auto_rom_install_path entropy self :
  __init__ game players mode_num seed kind full env_name cycles rmode
    auto_rom_install_path entropy = inr self →
  let loaded := loadROM (rom_path self)
                  (setFloat "repeat_action_probability" 0 ALEInterface_new) in
  obs_type self = kind ∧ kind ∈ valid_obs_types ∧
  mode self ∈ getAvailableModes loaded players ∧
  (∀ m, mode_num = Some m → mode self = m) ∧
  numPlayersActive (setMode (mode self) loaded) = players.
Proof.
  intros Hi.
  pose proof (init_inv_full _ _ _ _ _ _ _ _ _ _ _ _ Hi)
    as (final & m & _ & Hsel & Hin & Hplayers & -> & -> & _).
  assert (obs_type self = kind ∧ kind ∈ valid_obs_types) as [Hk1 Hk2].
  { pose proof (init_inv _ _ _ _ _ _ _ _ _ _ _ _ Hi) as [Hvalid _].
    revert Hi Hvalid. unfold __init__. intros Hi.
    bind_inv Hi as u Hobs. bind_inv Hi as final' Hfinal. bind_inv Hi as m' Hm.
    bind_inv Hi as u' Hp.
    destruct (if full then _ else _) as [action_size mapping].
    bind_inv Hi as space Hspace. bind_inv Hi as names Hnames.
    apply seed_inv in Hi as [_ ->]. destruct seed; simpl; auto. }
  simpl. split_and!; try done.
  intros m' ->. destruct Hsel as [[= ->] | [? _]]; [done | discriminate].
Qed.

(** The ROM a constructed adapter has loaded is the first of the three
    candidates that exists. *)
Theorem constructed_rom_path game players mode_num seed kind full env_name cycles
    rmode auto_rom_install_path entropy self :
  __init__ game players mode_num seed kind full env_name cycles rmode
    auto_rom_install_path entropy = inr self →
  ∃ (i : nat) final,
    list_find (λ p, exists_ p = true)
      (rom_candidates game auto_rom_install_path) = Some (i, final) ∧
    rom_path self = path_str final.
Proof.
  intros Hi.
  pose proof (init_inv_full _ _ _ _ _ _ _ _ _ _ _ _ Hi)
    as (final & m & Hfinal & _ & _ & _ & Hpath & _).
  rewrite find_rom_first in Hfinal.
  destruct (list_find _ _) as [[i p]|]; [|discriminate].
  injection Hfinal as ->. eauto.
Qed.

(** The action table of a constructed adapter: the eighteen codes 0 to 17
    in order when the full action space was asked for (so a logical index
    is its own native code), the emulator's minimal action set otherwise. *)
Theorem constructed_action_mapping game players mode_num seed kind full env_name
    cycles rmode auto_rom_install_path entropy self :
  __init__ game players mode_num seed kind full env_name cycles rmode
    auto_rom_install_path entropy = inr self →
  (full = true →
     action_mapping self = range 18 ∧
     ∀ i, 0 ≤ i < 18 → getitem (action_mapping self) i = inr i) ∧
  (full = false →
     action_mapping self =
       getMinimalActionSet
         (setMode (mode self)
            (loadROM (rom_path self)
               (setFloat "repeat_action_probability" 0 ALEInterface_new)))).
Proof.
  intros Hi.
  pose proof (init_inv_full _ _ _ _ _ _ _ _ _ _ _ _ Hi)
    as (final & m & _ & _ & _ & _ & -> & -> & _ & _ & Hmap & _).
  split; intros ->; simpl in Hmap; [|done].
  split; [done|]. intros i Hi18. rewrite Hmap.
  assert (∃ k : nat, (k < 18)%nat ∧ i = Z.of_nat k) as (k & Hk & ->).
  { exists (Z.to_nat i). lia. }
  do 18 (destruct k as [|k]; [reflexivity|]). lia.
Qed.

(** [action_space] on a constructed adapter: every possible agent has a
    discrete space as large as the action table; any other agent name
    raises KeyError. *)
Theorem constructed_action_spaces game players mode_num seed kind full env_name
    cycles rmode auto_rom_install_path entropy self agent :
  __init__ game players mode_num seed kind full env_name cycles rmode
    auto_rom_install_path entropy = inr self →
  action_space self agent =
    if decide (agent ∈ possible_agents self)
    then inr (Z.of_nat (length (action_mapping self)))
    else inl (KeyError agent).
Proof.
  intros Hi.
  pose proof (init_inv_full _ _ _ _ _ _ _ _ _ _ _ _ Hi)
    as (final & m & _ & _ & _ & _ & _ & _ & _ & _ & Hmap & Hspaces & _).
  unfold action_space, dict_getitem. rewrite Hspaces, dict_of_keyed_lookup.
  case_decide; [|done]. rewrite Hmap. by destruct full.
Qed.

(** [observation_space] on a constructed adapter: every possible agent
    has the same box, of shape [128] for RAM observations and
    [height, width, channels] for images, with three channels for colour
    and one for grayscale; any other agent name raises KeyError. *)
Theorem constructed_observation_spaces game players mode_num seed kind full
    env_name cycles rmode auto_rom_install_path entropy self agent :
  __init__ game players mode_num seed kind full env_name cycles rmode
    auto_rom_install_path entropy = inr self →
  let dims := getScreenDims
                (setMode (mode self)
                   (loadROM (rom_path self)
                      (setFloat "repeat_action_probability" 0 ALEInterface_new))) in
  observation_space self agent =
    if decide (agent ∈ possible_agents self)
    then inr (if decide (kind = "ram") then [128]
              else [dims.2; dims.1; if decide (kind = "rgb_image") then 3 else 1])
    else inl (KeyError agent).
Proof.
  intros Hi.
  pose proof (init_inv_full _ _ _ _ _ _ _ _ _ _ _ _ Hi)
    as (final & m & _ & _ & _ & _ & -> & -> & _ & _ & _ & _ & Hspaces & _).
  unfold observation_space, dict_getitem. simpl.
  rewrite Hspaces, dict_of_keyed_lookup.
  case_decide; [|done]. f_equal.
  destruct (String.eqb_spec kind "ram");
    destruct (String.eqb_spec kind "rgb_image");
    repeat case_decide; done.
Qed.

End ConstructionFacts.

(** ** More about [reset] and [step] *)

Section SessionFacts.
Context {emulator : ALEInterface} {host : Host}.
Implicit Types (self : ParallelAtariEnv) (action_dict : gmap string Z).

Lemma observe_invalid self :
  obs_type self ∉ valid_obs_types → _observe self = inl (ValueError obs_type_error).
Proof.
  unfold valid_obs_types, _observe. intros Hnot.
  destruct (String.eqb_spec (obs_type self) "ram") as [E|_].
  { exfalso. apply Hnot. rewrite E. set_solver. }
  destruct (String.eqb_spec (obs_type self) "rgb_image") as [E|_].
  { exfalso. apply Hnot. rewrite E. set_solver. }
  destruct (String.eqb_spec (obs_type self) "grayscale_image") as [E|_]; [|done].
  exfalso. apply Hnot. rewrite E. set_solver.
Qed.

(** The attributes [step] never assigns. *)
Lemma step_attrs self action_dict self' out :
  step self action_dict = inr (self', out) →
  rom_path self' = rom_path self ∧ mode self' = mode self ∧
  num_players self' = num_players self ∧
  full_action_space self' = full_action_space self ∧
  action_spaces self' = action_spaces self ∧
  observation_spaces self' = observation_spaces self ∧
  terminations self' = terminations self ∧
  np_random self' = np_random self ∧
  (render_mode self ≠ Some "human" → _screen self' = _screen self).
Proof.
  unfold step. intros Hs.
  bind_inv Hs as v Hv.
  destruct (act (ale self) v) as [a rv] eqn:Eact.
  bind_inv Hs as n1 Hn1. bind_inv Hs as o Ho. simpl in Hs.
  bind_inv Hs as remaining Hprune. bind_inv Hs as final Hfinal.
  injection Hs as -> _.
  destruct (bool_decide (render_mode self = Some "human")) eqn:Ehuman in Hfinal.
  - bind_inv Hfinal as r Hr. destruct r as [[s1 log] img]. injection Hfinal as <-.
    apply bool_decide_eq_true_1 in Ehuman.
    unfold render in Hr. simpl in Hr. rewrite Ehuman in Hr.
    bind_inv Hr as u Hu. destruct (getScreenDims a) as [w h]. simpl in Hr.
    injection Hr as <- _ _. by split_and!.
  - injection Hfinal as <-. by split_and!.
Qed.

Lemma reset_attrs self seed entropy self0 out :
  reset self seed entropy = inr (self0, out) →
  rom_path self0 = rom_path self ∧ mode self0 = mode self ∧
  num_players self0 = num_players self ∧
  full_action_space self0 = full_action_space self ∧
  action_spaces self0 = action_spaces self ∧
  observation_spaces self0 = observation_spaces self ∧
  _screen self0 = _screen self ∧
  ale self0 = reset_game (match seed with
                          | Some s => reseeded self s
                          | None => ale self
                          end) ∧
  np_random self0 = match seed with Some s => s | None => entropy end.
Proof.
  unfold reset. intros Hr. bind_inv Hr as self1 Hseed. bind_inv Hr as o Ho.
  injection Hr as <- _. destruct seed as [s|].
  - apply seed_inv in Hseed as [_ ->]. by split_and!.
  - simpl in Hseed. injection Hseed as <-. by split_and!.
Qed.

Lemma reset_returns_aux self seed entropy :
  (∀ s, seed = Some s → 0 ≤ s) →
  (obs_type self ∈ valid_obs_types →
     ∃ self0 out, reset self seed entropy = inr (self0, out)) ∧
  (obs_type self ∉ valid_obs_types →
     reset self seed entropy = inl (ValueError obs_type_error)).
Proof.
  intros Hseed.
  assert (∃ self1, (match seed with
                    | Some _ => _seed seed entropy self
                    | None => let* seeded := seeding_np_random None entropy in
                              ret (set_np_random seeded.1 self)
                    end) = inr self1 ∧ obs_type self1 = obs_type self)
    as (self1 & Hself1 & Hkind1).
  { destruct seed as [s|].
    - destruct (seed_returns self (Some s) entropy Hseed) as [self1 H1].
      exists self1. split; [done|]. by apply seed_inv in H1 as [_ ->].
    - simpl. eauto. }
  split; intros Hkind; unfold reset; rewrite Hself1; simpl.
  - match goal with
    | |- context [_observe ?s] =>
        destruct (observe_valid s) as [o Ho]; [simpl; by rewrite Hkind1|];
        rewrite Ho
    end.
    simpl. eauto.
  - match goal with
    | |- context [_observe ?s] =>
        rewrite (observe_invalid s) by (simpl; by rewrite Hkind1)
    end.
    done.
Qed.

(** With a negative seed [reset] raises gymnasium's error, whatever the
    observation kind.  With no seed or a non-negative one it returns
    exactly when the observation kind is one of the three, and otherwise
    raises the ValueError of [_observe]. *)
Theorem reset_returns_iff_valid_obs_type self seed entropy :
  (∀ s, seed = Some s → s < 0 → reset self seed entropy = inl GymnasiumError) ∧
  ((∀ s, seed = Some s → 0 ≤ s) →
     (obs_type self ∈ valid_obs_types →
        ∃ self0 out, reset self seed entropy = inr (self0, out)) ∧
     (obs_type self ∉ valid_obs_types →
        reset self seed entropy = inl (ValueError obs_type_error))).
Proof.
  split; [|apply reset_returns_aux].
  intros s -> Hs. unfold reset. by rewrite (seed_negative self s entropy Hs).
Qed.

(** What [reset] does to the emulator.  With a seed, the emulator is
    reseeded, the ROM loaded again and the mode set again before the game
    is reset, and the adapter's generator is made from that seed.
    Without one, the emulator is only told to reset the game, and the
    adapter's generator is made from fresh entropy.  The display surface
    is kept either way. *)
Theorem reset_emulator self seed entropy self0 out :
  reset self seed entropy = inr (self0, out) →
  (∀ s, seed = Some s →
     ale self0 = reset_game
                   (setMode (mode self)
                      (loadROM (rom_path self)
                         (setInt "random_seed" s (ale self)))) ∧
     np_random self0 = s) ∧
  (seed = None → ale self0 = reset_game (ale self) ∧ np_random self0 = entropy) ∧
  _screen self0 = _screen self.
Proof.
  intros Hr. apply reset_attrs in Hr as (_ & _ & _ & _ & _ & _ & Hscr & Hale & Hrng).
  split_and!; [intros s -> | intros -> | done]; done.
Qed.

(** A constructed adapter can be reset at any point of an episode, with
    no seed or a non-negative one: the call returns, and all the agents
    of the roster are active again. *)
Theorem reset_restarts_episode game players mode_num seed kind full env_name
    cycles rmode auto_rom_install_path entropy made seed0 entropy0 self0 out0
    (k : nat) self seed1 entropy1 :
  __init__ game players mode_num seed kind full env_name cycles rmode
    auto_rom_install_path entropy = inr made →
  reset made seed0 entropy0 = inr (self0, out0) →
  after_steps self0 k self →
  (∀ s, seed1 = Some s → 0 ≤ s) →
  ∃ self1 out1,
    reset self seed1 entropy1 = inr (self1, out1) ∧
    agents self1 = possible_agents made ∧
    frame self1 = Some 0.
Proof.
  intros Hmade Hr Hk Hseed1.
  pose proof (episode_well_formed _ _ _ _ _ _ _ _ _ _ _ _ _ _ _ _ _ _
                Hmade Hr Hk) as (_ & _ & Hkind).
  destruct out0 as [obs0 infos0].
  apply reset_inv in Hr as ((_ & _ & Hp0 & _) & _).
  pose proof (after_steps_same_config _ _ _ Hk) as (_ & _ & Hpk & _).
  destruct (proj1 (reset_returns_aux self seed1 entropy1 Hseed1) Hkind)
    as (self1 & [obs1 infos1] & Hr1).
  exists self1, (obs1, infos1). split; [done|].
  apply reset_inv in Hr1 as (_ & Hag & Hfr & _).
  rewrite Hag, Hpk, Hp0. done.
Qed.

(** *** The action vector *)

Lemma getitem_range {A} (l : list A) (i : Z) (x : A) :
  getitem l i = inr x → - Z.of_nat (length l) ≤ i < Z.of_nat (length l).
Proof.
  unfold getitem. destruct (i <? 0) eqn:E;
    [apply Z.ltb_lt in E | apply Z.ltb_ge in E];
    (destruct (_ && _) eqn:Eb; [|discriminate]);
    apply andb_true_iff in Eb as [H1%Z.leb_le H2%Z.ltb_lt]; lia.
Qed.

Lemma getitem_in_range {A} (l : list A) (i : Z) :
  0 ≤ i < Z.of_nat (length l) → ∃ x, getitem l i = inr x ∧ l !! Z.to_nat i = Some x.
Proof.
  intros Hi. unfold getitem.
  destruct (i <? 0) eqn:E; [apply Z.ltb_lt in E; lia|].
  replace ((0 <=? i) && (i <? Z.of_nat (length l))) with true.
  2:{ symmetry. apply andb_true_iff. split; [apply Z.leb_le | apply Z.ltb_lt]; lia. }
  destruct (lookup_lt_is_Some_2 l (Z.to_nat i)) as [x Hx]; [lia|].
  rewrite Hx. eauto.
Qed.

Lemma getitem_error {A} (l : list A) (i : Z) (e : exn) :
  getitem l i = inl e → e = IndexError.
Proof.
  unfold getitem. destruct (_ && _); [|by intros [= <-]].
  destruct (l !! _); [discriminate | by intros [= <-]].
Qed.

Lemma mapM_error {A B} (f : A → result B) (l : list A) (e : exn) :
  mapM f l = inl e → ∃ x, x ∈ l ∧ f x = inl e.
Proof.
  induction l as [|x l IH]; simpl; [discriminate|].
  destruct (f x) as [e'|y] eqn:Ex; simpl.
  - intros [= <-]. exists x. split; [apply list_elem_of_here | done].
  - destruct (mapM f l) as [e'|ys]; simpl; [|discriminate].
    intros [= <-]. destruct IH as (x' & Hin & Hx'); [done|].
    exists x'. split; [by apply list_elem_of_further | done].
Qed.

Lemma mapM_ok {A B} (f : A → result B) (l : list A) :
  Forall (λ x, ∃ y, f x = inr y) l → ∃ v, mapM f l = inr v.
Proof.
  induction 1 as [|x l [y Hy] _ [v Hv]]; simpl; [by eexists|].
  rewrite Hy. simpl. rewrite Hv. simpl. by eexists.
Qed.

Lemma fill_actions_error (slots : list (nat * string)) action_dict :
  ∀ (actions : list Z) (e : exn),
    fill_actions slots action_dict actions = inl e →
    e = OverflowError ∨ e = IndexError.
Proof.
  induction slots as [|[i a] slots IH]; simpl; intros actions e; [discriminate|].
  destruct (action_dict !! a) as [x|]; [|apply IH].
  unfold np_setitem.
  destruct (decide _); [|intros [= <-]; auto].
  destruct (_ && _); simpl; [apply IH | intros [= <-]; auto].
Qed.

Lemma fill_actions_ok action_dict (l : list string) :
  (∀ a x, a ∈ l → action_dict !! a = Some x → int32_min ≤ x ≤ int32_max) →
  ∀ (s : nat) (actions : list Z),
    (s + length l ≤ length actions)%nat →
    ∃ v, fill_actions (zip (seq s (length l)) l) action_dict actions = inr v.
Proof.
  induction l as [|a l IH]; simpl; intros Hfit s actions Hlen; [by eexists|].
  assert (∀ a' x, a' ∈ l → action_dict !! a' = Some x → int32_min ≤ x ≤ int32_max)
    as Hfit'.
  { intros a' x Ha'. apply Hfit. by apply list_elem_of_further. }
  destruct (action_dict !! a) as [x|] eqn:Ea.
  - unfold np_setitem. rewrite decide_True by lia.
    destruct (Hfit a x (list_elem_of_here _ _) Ea) as [Hlo Hhi].
    replace ((int32_min <=? x) && (x <=? int32_max)) with true.
    2:{ symmetry. apply andb_true_iff. split; by apply Z.leb_le. }
    simpl. apply (IH Hfit'). rewrite length_insert. lia.
  - apply (IH Hfit'). lia.
Qed.

(** When the action table has an entry for index zero and every action
    supplied for a possible agent is an index into the table, the action
    vector is built without an exception, and slot [i] is the table entry
    at the index of the [i]-th possible agent. *)
Theorem valid_actions_accepted self action_dict :
  action_mapping self ≠ [] →
  Z.of_nat (length (action_mapping self)) ≤ 2 ^ 31 →
  (∀ a x, a ∈ possible_agents self → action_dict !! a = Some x →
          0 ≤ x < Z.of_nat (length (action_mapping self))) →
  ∃ v, native_actions self action_dict = inr v ∧
       ∀ (i : nat) a, possible_agents self !! i = Some a →
         v !! i = action_mapping self !! Z.to_nat (default 0 (action_dict !! a)) ∧
         is_Some (v !! i).
Proof.
  intros Hne Hsize Hvalid.
  assert (∃ v, native_actions self action_dict = inr v) as [v Hv].
  { unfold native_actions, max_num_agents, np_zeros, np_take, enumerate.
    destruct (fill_actions_ok action_dict (possible_agents self)) with
      (s := 0%nat) (actions := replicate (length (possible_agents self)) 0)
      as [filled Hfilled].
    { intros a x Ha Hx. destruct (Hvalid a x Ha Hx).
      unfold int32_min, int32_max. lia. }
    { rewrite length_replicate. lia. }
    rewrite Hfilled. simpl. apply mapM_ok, Forall_forall. intros x Hx.
    apply fill_actions_spec in Hfilled as (Hlen & _ & Hslots).
    apply list_elem_of_lookup in Hx as [i Hi].
    assert (i < length (possible_agents self))%nat as Hlt.
    { apply lookup_lt_Some in Hi. rewrite Hlen, length_replicate in Hi. done. }
    destruct (lookup_lt_is_Some_2 (possible_agents self) i Hlt) as [a Ha].
    specialize (Hslots i a Ha). simpl in Hslots. rewrite Hi in Hslots.
    assert (0 ≤ x < Z.of_nat (length (action_mapping self))) as Hrange.
    { destruct (action_dict !! a) as [y|] eqn:Ey.
      - injection Hslots as ->. eapply Hvalid; [|exact Ey].
        eapply list_elem_of_lookup_2, Ha.
      - rewrite lookup_replicate_2 in Hslots by done. injection Hslots as ->.
        destruct (action_mapping self); [done | simpl; lia]. }
    destruct (getitem_in_range _ _ Hrange) as (y & Hy & _). eauto. }
  exists v. split; [done|]. intros i a Ha.
  apply native_actions_spec in Hv as [_ Hslots].
  destruct (Hslots i a Ha) as (code & Hcode & Hvi).
  rewrite Hvi. split; [|eauto]. symmetry. apply getitem_nonneg; [|done].
  destruct (action_dict !! a) as [y|] eqn:Ey; simpl; [|lia].
  apply (Hvalid a y); [|done]. eapply list_elem_of_lookup_2, Ha.
Qed.

(** An action for a possible agent that is not an index into the action
    table (counting from the end allowed) makes [step] raise IndexError
    or OverflowError, before the emulator is asked to act. *)
Theorem bad_action_rejected self action_dict a x :
  a ∈ possible_agents self →
  action_dict !! a = Some x →
  ¬ (- Z.of_nat (length (action_mapping self)) ≤ x
     < Z.of_nat (length (action_mapping self))) →
  ∃ e, native_actions self action_dict = inl e ∧
       step self action_dict = inl e ∧
       (e = IndexError ∨ e = OverflowError).
Proof.
  intros Ha Hx Hbad.
  destruct (native_actions self action_dict) as [e|v] eqn:Hv.
  - exists e. split; [done|]. split; [unfold step; by rewrite Hv|].
    revert Hv. unfold native_actions, np_take.
    destruct (fill_actions _ _ _) as [e'|filled] eqn:Hfill; simpl.
    + intros [= <-]. apply fill_actions_error in Hfill. tauto.
    + intros (y & _ & Hy%getitem_error)%mapM_error. auto.
  - exfalso. apply native_actions_spec in Hv as [_ Hslots].
    apply list_elem_of_lookup in Ha as [i Hi].
    destruct (Hslots i a Hi) as (code & Hcode & _).
    rewrite Hx in Hcode. simpl in Hcode. by apply getitem_range in Hcode.
Qed.

(** [step] on an adapter whose frame counter has never been set (one that
    was constructed and not yet reset) does not return: it raises
    AttributeError once the action vector is built and the emulator has
    acted, or whatever building the vector raised. *)
Theorem step_before_reset self action_dict :
  frame self = None →
  (∀ v, native_actions self action_dict = inr v →
        step self action_dict = inl (AttributeError "frame")) ∧
  (∀ e, native_actions self action_dict = inl e → step self action_dict = inl e).
Proof.
  intros Hframe. unfold step. split.
  - intros v ->. simpl. destruct (act (ale self) v) as [a rv]. simpl.
    by rewrite Hframe.
  - by intros e ->.
Qed.

(** *** What a step reports *)

Lemma dict_of_zip_lookup {V} (keys live : list string) (values : list V)
    (i : nat) (k : string) :
  NoDup keys → keys !! i = Some k → k ∈ live →
  dict_of (filter (λ '(a, _), list_in a live = true) (zip keys values)) !! k
  = values !! i.
Proof.
  intros Hnd Hi Hk.
  destruct (dict_of _ !! k) as [x|] eqn:E.
  - apply dict_of_lookup_Some, list_elem_of_filter in E as [_ Hzip].
    apply list_elem_of_lookup in Hzip as [j Hj].
    apply lookup_zip_with_Some in Hj as (k' & x' & [= <- <-] & Hjk & Hjx).
    by rewrite (NoDup_lookup _ _ _ _ Hnd Hi Hjk).
  - apply dict_of_lookup_None in E.
    destruct (values !! i) as [x|] eqn:Ex; [|done].
    exfalso. apply E. apply list_elem_of_fmap. exists (k, x). split; [done|].
    apply list_elem_of_filter. split; [by apply bool_decide_eq_true_2|].
    apply list_elem_of_lookup. exists i. apply lookup_zip_with_Some. eauto.
Qed.

Lemma terminations_by_lives self action_dict self' obs rews terms truncs infos
    (i : nat) a :
  NoDup (possible_agents self) →
  step self action_dict = inr (self', (obs, rews, terms, truncs, infos)) →
  game_over (ale self') = false →
  possible_agents self !! i = Some a → a ∈ agents self →
  ∃ life, allLives (ale self') !! i = Some life ∧ terms !! a = Some (life <? 0).
Proof.
  intros Hnd Hs Hover Hi Ha.
  pose proof (proj2 (terminations_keys _ _ _ _ _ _ _ _ Hs a) Ha) as [t Ht].
  apply step_inv in Hs as (v & n & o & Hs).
  destruct Hs as (_ & _ & _ & _ & _ & _ & _ & Hterms & _).
  rewrite Hterms, Hover in Ht |- *.
  pose proof Ht as Ht'.
  apply dict_of_lookup_Some, list_elem_of_fmap in Ht'
    as ([a' life] & [= <- ->] & [_ Hzip]%list_elem_of_filter).
  apply list_elem_of_lookup in Hzip as [j Hj].
  apply lookup_zip_with_Some in Hj as (a'' & life' & [= <- <-] & Hja & Hjl).
  rewrite (NoDup_lookup _ _ _ _ Hnd Hi Hja). eauto.
Qed.

(** Each active agent is paid the reward the emulator reported for its
    slot: the entry of [act]'s reward vector at the agent's position in
    the roster (no entry if the vector is too short). *)
Theorem step_rewards self action_dict self' obs rews terms truncs infos :
  NoDup (possible_agents self) →
  step self action_dict = inr (self', (obs, rews, terms, truncs, infos)) →
  ∃ v, native_actions self action_dict = inr v ∧
       ∀ (i : nat) a, possible_agents self !! i = Some a → a ∈ agents self →
         rews !! a = (act (ale self) v).2 !! i.
Proof.
  intros Hnd Hs. apply step_inv in Hs as (v & n & o & Hs).
  destruct Hs as (Hv & _ & _ & _ & _ & _ & _ & _ & _ & -> & _).
  exists v. split; [done|]. intros i a Hi Ha.
  by apply dict_of_zip_lookup.
Qed.

(** Every active agent is given the same observation: what the emulator
    shows after the step (its RAM, its colour screen or its grayscale
    screen, by observation kind); and every active agent is given an
    empty info dictionary. *)
Theorem step_observations self action_dict self' obs rews terms truncs infos :
  agents self ⊆ possible_agents self →
  step self action_dict = inr (self', (obs, rews, terms, truncs, infos)) →
  ∃ o, _observe self' = inr o ∧
       (obs_type self = "ram" → o = getRAM (ale self')) ∧
       (obs_type self = "rgb_image" → o = getScreenRGB (ale self')) ∧
       (obs_type self = "grayscale_image" → o = getScreenGrayscale (ale self')) ∧
       (∀ a, obs !! a = if decide (a ∈ agents self) then Some o else None) ∧
       (∀ a, infos !! a = if decide (a ∈ agents self) then Some ∅ else None).
Proof.
  intros Hsub Hs. apply step_inv in Hs as (v & n & o & Hs).
  destruct Hs as (_ & _ & Ho & Hale & _ & Hcfg & _ & _ & -> & _ & -> & _).
  destruct Hcfg as (Hkind & _).
  assert (_observe self' = inr o) as Ho'.
  { rewrite <- Ho. apply observe_config; [done | by rewrite Hale]. }
  exists o. split_and!; [done | | | | |].
  - intros E. revert Ho'. unfold _observe. rewrite Hkind, E. simpl. by intros [= <-].
  - intros E. revert Ho'. unfold _observe. rewrite Hkind, E. simpl. by intros [= <-].
  - intros E. revert Ho'. unfold _observe. rewrite Hkind, E. simpl. by intros [= <-].
  - intros a. apply dict_of_keyed_lookup.
  - intros a.
    rewrite (dict_of_keyed_lookup (λ _, ∅)
               (filter (λ agent, list_in agent (agents self) = true)
                  (possible_agents self)) a).
    destruct (decide (a ∈ agents self)) as [Ha|Ha].
    + rewrite decide_True; [done|]. by apply filter_live_keys.
    + rewrite decide_False; [done|]. by rewrite filter_live_keys.
Qed.

(** With no agent active, a step still makes the emulator act and counts
    the frame, and returns five empty dictionaries; no agent becomes
    active again. *)
Theorem step_with_no_active_agents
    self action_dict self' obs rews terms truncs infos :
  agents self = [] →
  step self action_dict = inr (self', (obs, rews, terms, truncs, infos)) →
  obs = ∅ ∧ rews = ∅ ∧ terms = ∅ ∧ truncs = ∅ ∧ infos = ∅ ∧
  agents self' = [] ∧
  (∃ n, frame self = Some n ∧ frame self' = Some (n + 1)) ∧
  (∃ v, native_actions self action_dict = inr v ∧
        ale self' = (act (ale self) v).1).
Proof.
  intros Hnone Hs.
  pose proof (terminations_keys _ _ _ _ _ _ _ _ Hs) as Hkeys.
  pose proof (step_sublist _ _ _ _ Hs) as Hsub.
  apply step_inv in Hs as (v & n & o & Hs).
  destruct Hs as (Hv & Hn & _ & Hale & Hn' & _ & -> & _ & -> & -> & -> & _).
  rewrite Hnone in *.
  assert (∀ {V} (m : gmap string V), (∀ a, m !! a = None) → m = ∅) as Hempty.
  { intros V m Hm. apply map_eq. intros a. by rewrite Hm, lookup_empty. }
  split_and!; try done.
  - apply Hempty. intros a. apply dict_of_lookup_None.
    intros Hin%filter_zip_fst_live. by apply elem_of_nil in Hin.
  - apply Hempty. intros a. apply eq_None_not_Some. rewrite Hkeys.
    apply not_elem_of_nil.
  - apply Hempty. intros a. apply dict_of_lookup_None.
    rewrite <- list_fmap_compose. intros (x & _ & [Hin _]%list_elem_of_filter)%list_elem_of_fmap.
    apply bool_decide_eq_true_1 in Hin. by apply elem_of_nil in Hin.
  - by apply sublist_nil_r.
  - eauto.
  - eauto.
Qed.

(** When the emulator reports game over, the step leaves no agent
    active. *)
Theorem game_over_ends_episode
    self action_dict self' obs rews terms truncs infos :
  step self action_dict = inr (self', (obs, rews, terms, truncs, infos)) →
  game_over (ale self') = true →
  agents self' = [].
Proof.
  intros Hs Hover.
  pose proof (step_agents _ _ _ _ _ _ _ _ Hs) as [-> _].
  apply step_inv in Hs as (v & n & o & Hs).
  destruct Hs as (_ & _ & _ & _ & _ & _ & _ & -> & _).
  rewrite Hover.
  assert (∀ a, dict_of ((λ agent, (agent, true)) <$> agents self) !! a
               ≠ Some false) as Hnone.
  { intros a E.
    by apply dict_of_lookup_Some, list_elem_of_fmap in E as (a' & [= _ ?] & _). }
  revert Hnone. generalize (dict_of ((λ agent, (agent, true)) <$> agents self)).
  intros d Hd. induction (agents self) as [|a l IH]; [done|].
  by rewrite filter_cons_False.
Qed.

(** While the game is not over, the agents a step keeps are exactly the
    active agents whose slot has a non-negative life count. *)
Theorem step_survivors self action_dict self' obs rews terms truncs infos a :
  NoDup (possible_agents self) →
  agents self ⊆ possible_agents self →
  step self action_dict = inr (self', (obs, rews, terms, truncs, infos)) →
  game_over (ale self') = false →
  a ∈ agents self' ↔
  a ∈ agents self ∧
  ∃ (i : nat) life, possible_agents self !! i = Some a ∧
                    allLives (ale self') !! i = Some life ∧ 0 ≤ life.
Proof.
  intros Hnd Hsub Hs Hover.
  pose proof (step_agents _ _ _ _ _ _ _ _ Hs) as [Hag _].
  rewrite Hag, list_elem_of_filter. split.
  - intros [Hfalse Ha]. split; [done|].
    destruct (proj1 (list_elem_of_lookup _ _) (Hsub _ Ha)) as [i Hi].
    destruct (terminations_by_lives _ _ _ _ _ _ _ _ i a Hnd Hs Hover Hi Ha)
      as (life & Hlife & Hterm).
    exists i, life. split_and!; [done | done |].
    rewrite Hterm in Hfalse. injection Hfalse as Hneg%Z.ltb_ge. done.
  - intros (Ha & i & life & Hi & Hlife & Hpos). split; [|done].
    destruct (terminations_by_lives _ _ _ _ _ _ _ _ i a Hnd Hs Hover Hi Ha)
      as (life' & Hlife' & Hterm).
    rewrite Hlife in Hlife'. injection Hlife' as <-.
    rewrite Hterm. f_equal. by apply Z.ltb_ge.
Qed.

(** *** What an episode keeps *)

Lemma prune_ok (t : gmap string bool) (l : list string) :
  Forall (λ a, is_Some (t !! a)) l → ∃ l', prune t l = inr l'.
Proof.
  induction 1 as [|a l [b Hb] _ [l' Hl']]; simpl; [by eexists|].
  unfold dict_getitem. rewrite Hb. simpl. rewrite Hl'. simpl. by eexists.
Qed.

Lemma after_steps_attrs self0 (k : nat) self :
  after_steps self0 k self →
  rom_path self = rom_path self0 ∧ mode self = mode self0 ∧
  num_players self = num_players self0 ∧
  full_action_space self = full_action_space self0 ∧
  action_spaces self = action_spaces self0 ∧
  observation_spaces self = observation_spaces self0 ∧
  terminations self = terminations self0 ∧
  np_random self = np_random self0.
Proof.
  induction 1 as [|k self ad self' out _ IH Hs]; [by split_and!|].
  apply step_attrs in Hs. intuition congruence.
Qed.

(** Nothing that was fixed at construction changes in the course of an
    episode: after [reset] and any number of steps the roster, the action
    table, the step limit, the observation kind, the render mode, the
    metadata, the ROM path, the mode, the player count and the space
    descriptors are what they were. *)
Theorem episode_keeps_configuration self seed entropy self0 out0 (k : nat) selfk :
  reset self seed entropy = inr (self0, out0) →
  after_steps self0 k selfk →
  possible_agents selfk = possible_agents self ∧
  action_mapping selfk = action_mapping self ∧
  max_cycles selfk = max_cycles self ∧
  obs_type selfk = obs_type self ∧
  render_mode selfk = render_mode self ∧
  metadata selfk = metadata self ∧
  rom_path selfk = rom_path self ∧
  mode selfk = mode self ∧
  num_players selfk = num_players self ∧
  full_action_space selfk = full_action_space self ∧
  action_spaces selfk = action_spaces self ∧
  observation_spaces selfk = observation_spaces self.
Proof.
  intros Hr Hk. destruct out0 as [obs0 infos0].
  pose proof (reset_attrs _ _ _ _ _ Hr) as (?&?&?&?&?&?&_).
  apply reset_inv in Hr as ((?&?&?&?&?&?) & _).
  pose proof (after_steps_same_config _ _ _ Hk) as (?&?&?&?&?&?).
  pose proof (after_steps_attrs _ _ _ Hk) as (?&?&?&?&?&?&_).
  split_and!; congruence.
Qed.

(** The attribute [self.terminations] is written by [reset] only: after
    any number of steps it still maps every possible agent to false,
    whoever has been terminated in the meantime. *)
Theorem terminations_attribute_is_stale self seed entropy self0 out0 (k : nat) selfk :
  reset self seed entropy = inr (self0, out0) →
  after_steps self0 k selfk →
  ∃ flags, terminations selfk = Some flags ∧
    ∀ a, flags !! a = if decide (a ∈ possible_agents self) then Some false else None.
Proof.
  intros Hr Hk. destruct out0 as [obs0 infos0].
  apply reset_inv in Hr as (_ & _ & _ & Hterm & _).
  pose proof (after_steps_attrs _ _ _ Hk) as (_&_&_&_&_&_&Hkeep&_).
  eexists. split; [by rewrite Hkeep, Hterm|].
  intros a. apply dict_of_keyed_lookup.
Qed.

(** [step] returns whenever the action vector can be built, the frame
    counter has been set, the observation kind is valid, the human render
    mode (if configured) is a declared one, and, unless the game is over,
    the emulator reports a life count for the slot of every active
    agent. *)
Theorem step_returns self action_dict (v : list Z) (n : Z) :
  native_actions self action_dict = inr v →
  frame self = Some n →
  obs_type self ∈ valid_obs_types →
  (render_mode self = Some "human" → "human" ∈ render_modes (metadata self)) →
  (game_over (act (ale self) v).1 = true ∨
   ∀ a, a ∈ agents self →
     ∃ i : nat, possible_agents self !! i = Some a ∧
                (i < length (allLives (act (ale self) v).1))%nat) →
  ∃ self' out, step self action_dict = inr (self', out).
Proof.
  intros Hv Hn Hkind Hhuman Hlives. unfold step. rewrite Hv. simpl.
  destruct (act (ale self) v) as [a rv] eqn:Eact. simpl in *. rewrite Hn. simpl.
  match goal with
  | |- context [_observe ?s] =>
      destruct (observe_valid s) as [o Ho]; [done|]; rewrite Ho
  end.
  simpl.
  match goal with
  | |- context [prune ?t ?l] => destruct (prune_ok t l) as [l' Hl']
  end.
  { apply Forall_forall. intros x Hx. destruct Hlives as [-> | Hlives].
    - rewrite dict_of_keyed_lookup, decide_True by done. eauto.
    - destruct (game_over a).
      + rewrite dict_of_keyed_lookup, decide_True by done. eauto.
      + apply dict_of_lookup_is_Some. rewrite <- list_fmap_compose.
        destruct (Hlives x Hx) as (i & Hi & Hlt).
        destruct (lookup_lt_is_Some_2 _ _ Hlt) as [life Hlife].
        apply list_elem_of_fmap. exists (x, life). split; [done|].
        apply list_elem_of_filter. split; [by apply bool_decide_eq_true_2|].
        apply list_elem_of_lookup. exists i. apply lookup_zip_with_Some. eauto. }
  rewrite Hl'. simpl.
  destruct (bool_decide (render_mode self = Some "human")) eqn:Eh.
  - apply bool_decide_eq_true_1 in Eh. unfold render. simpl. rewrite Eh.
    unfold assert. rewrite bool_decide_eq_true_2 by auto. simpl.
    destruct (getScreenDims a) as [w h]. simpl. eauto.
  - simpl. eauto.
Qed.

(** *** [render] and [close] *)

(** In the [rgb_array] mode [render] returns the emulator's colour screen
    and changes nothing. *)
Theorem render_rgb_array self :
  render_mode self = Some "rgb_array" →
  "rgb_array" ∈ render_modes (metadata self) →
  render self = inr (self, [], Some (getScreenRGB (ale self))).
Proof.
  intros Hmode Hin. unfold render, assert. rewrite Hmode.
  rewrite bool_decide_eq_true_2 by done. simpl.
  by destruct (getScreenDims (ale self)).
Qed.

(** In the [human] mode [render] returns no frame and draws the
    emulator's colour screen on the display surface, which is created on
    first use at four times the screen size and reused afterwards. *)
Theorem render_human self :
  render_mode self = Some "human" →
  "human" ∈ render_modes (metadata self) →
  ∃ surface,
    render self = inr (set_screen (Some surface) self, [], None) ∧
    surface_image surface = Some (getScreenRGB (ale self)) ∧
    surface_size surface =
      match _screen self with
      | Some existing => surface_size existing
      | None => ((getScreenDims (ale self)).1 * 4, (getScreenDims (ale self)).2 * 4)
      end.
Proof.
  intros Hmode Hin. unfold render, assert. rewrite Hmode.
  rewrite bool_decide_eq_true_2 by done. simpl.
  destruct (getScreenDims (ale self)) as [w h]. simpl.
  eexists. split; [done|]. simpl. split; [done|].
  by destruct (_screen self).
Qed.

(** A render mode that is not among the declared ones makes [render]
    fail its assertion. *)
Theorem render_undeclared_mode self rm :
  render_mode self = Some rm →
  rm ∉ render_modes (metadata self) →
  render self = inl (AssertionError (rm +:+ " is not a valid render mode")).
Proof.
  intros Hmode Hnot. unfold render, assert. rewrite Hmode.
  by rewrite bool_decide_eq_false_2.
Qed.

(** The constructor does not check the render mode: an adapter built with
    a mode other than [human] and [rgb_array] fails only when [render] is
    called. *)
Theorem render_mode_checked_late game players mode_num seed kind full env_name
    cycles rm auto_rom_install_path entropy made :
  __init__ game players mode_num seed kind full env_name cycles (Some rm)
    auto_rom_install_path entropy = inr made →
  rm ≠ "human" → rm ≠ "rgb_array" →
  render made = inl (AssertionError (rm +:+ " is not a valid render mode")).
Proof.
  intros Hmade H1 H2.
  pose proof (init_inv_full _ _ _ _ _ _ _ _ _ _ _ _ Hmade)
    as (final & m & _ & _ & _ & _ & _ & _ & _ & _ & _ & _ & _ & Hmeta & _).
  apply init_inv in Hmade as (_ & _ & Hrm & _).
  unfold render, assert. rewrite Hrm, Hmeta. simpl.
  rewrite bool_decide_eq_false_2; [done|].
  rewrite !elem_of_cons. intros [?|[?|?%elem_of_nil]]; done.
Qed.


(** [close] gives up the display surface and nothing else; closing twice
    is the same as closing once. *)
Theorem close_releases_surface self :
  _screen (close self) = None ∧
  close (close self) = close self ∧
  ale (close self) = ale self ∧ agents (close self) = agents self ∧
  frame (close self) = frame self ∧
  possible_agents (close self) = possible_agents self ∧
  render_mode (close self) = render_mode self.
Proof. unfold close. destruct (_screen self) eqn:E; simpl; rewrite ?E; done. Qed.

(** A step in the [human] mode leaves on the display surface the colour
    screen of the emulator as it is after the step; in any other mode a
    step does not touch the surface. *)
Theorem step_display self action_dict self' out :
  step self action_dict = inr (self', out) →
  (render_mode self = Some "human" →
     ∃ surface, _screen self' = Some surface ∧
                surface_image surface = Some (getScreenRGB (ale self'))) ∧
  (render_mode self ≠ Some "human" → _screen self' = _screen self).
Proof.
  intros Hs. split; [|by apply step_attrs in Hs as (_&_&_&_&_&_&_&_&?)].
  intros Hhuman. revert Hs. unfold step. intros Hs.
  bind_inv Hs as v Hv.
  destruct (act (ale self) v) as [a rv] eqn:Eact.
  bind_inv Hs as n1 Hn1. bind_inv Hs as o Ho. simpl in Hs.
  bind_inv Hs as remaining Hprune. bind_inv Hs as final Hfinal.
  injection Hs as -> _.
  rewrite bool_decide_eq_true_2 in Hfinal by done.
  bind_inv Hfinal as r Hr. destruct r as [[s1 log] img]. injection Hfinal as <-.
  unfold render in Hr. simpl in Hr. rewrite Hhuman in Hr.
  bind_inv Hr as u Hu. destruct (getScreenDims a) as [w h]. simpl in Hr.
  injection Hr as <- _ _. simpl. eauto.
Qed.

End SessionFacts.

(** ** Foozpong *)

Section FoozpongFacts.
Context {emulator : ALEInterface} {host : Host}.
Import foozpong.

Lemma split_nonempty sep s : split sep s ≠ [].
Proof.
  destruct s as [|c s]; simpl; [done|].
  destruct (Ascii.eqb c sep); [done|]. by destruct (split sep s).
Qed.

Lemma split_no_sep sep w : contains sep w = false → split sep w = [w].
Proof.
  induction w as [|c w IH]; simpl; [done|].
  intros [Hc Hw]%orb_false_iff. rewrite Hc, (IH Hw). done.
Qed.

(** [(p + sep + w).split(sep) == p.split(sep) + w.split(sep)] *)
Lemma split_app sep p w :
  split sep (p +:+ String sep w) = split sep p ++ split sep w.
Proof.
  induction p as [|c p IH]; simpl.
  - by rewrite Ascii.eqb_refl.
  - destruct (Ascii.eqb c sep); [by rewrite IH|].
    rewrite IH. pose proof (split_nonempty sep p).
    by destruct (split sep p).
Qed.

Lemma contains_app c s t :
  contains c (s +:+ t) = contains c s || contains c t.
Proof.
  induction s as [|x s IH]; simpl; [done|]. by rewrite IH, orb_assoc.
Qed.

Lemma getitem_last {A} (l : list A) (x : A) : getitem (l ++ [x]) (-1) = inr x.
Proof.
  unfold getitem. simpl.
  rewrite length_app. simpl.
  replace ((0 <=? -1 + Z.of_nat (length l + 1))
           && (-1 + Z.of_nat (length l + 1) <? Z.of_nat (length l + 1))) with true.
  2:{ symmetry. apply andb_true_iff. split; [apply Z.leb_le | apply Z.ltb_lt]; lia. }
  replace (Z.to_nat (-1 + Z.of_nat (length l + 1))) with (length l) by lia.
  by rewrite list_lookup_middle.
Qed.

(** The version is read off the first matching file name: for a name of
    the form [prefix_version.ext], where the version contains neither an
    underscore nor a dot and the extension no underscore, it is
    [version], whatever the prefix (underscores and dots included) and
    whatever other files matched. *)
Theorem version_num_of_versioned_file prefix version ext rest :
  contains "_" version = false →
  contains "." version = false →
  contains "_" ext = false →
  version_num ((prefix +:+ "_" +:+ version +:+ "." +:+ ext) :: rest) = inr version.
Proof.
  intros Hv1 Hv2 He. unfold version_num. simpl.
  change (prefix +:+ "_" +:+ version +:+ "." +:+ ext)
    with (prefix +:+ String "_"%char (version +:+ String "."%char ext)).
  rewrite split_app.
  rewrite (split_no_sep "_" (version +:+ String "." ext)).
  2:{ rewrite contains_app, Hv1. simpl. exact He. }
  pose proof (split_nonempty "_" prefix) as Hne.
  rewrite getitem_last. simpl.
  rewrite split_app, (split_no_sep "." version Hv2). done.
Qed.

(** Foozpong refuses any player count other than two and four, before it
    looks at the file system or the emulator. *)
Theorem raw_env_rejects_player_count file glob players seed kind full cycles
    rmode auto_rom_install_path entropy :
  players ≠ 2 → players ≠ 4 →
  raw_env file glob players seed kind full cycles rmode auto_rom_install_path
    entropy = inl (AssertionError player_count_error).
Proof.
  intros H2 H4. unfold raw_env, assert.
  by rewrite !bool_decide_eq_false_2.
Qed.


(** A foozpong adapter plays pong in mode 19 with the first two agents or
    in mode 21 with all four, under the name [stem_version] made from the
    module's file name and the version found by the matcher. *)
Theorem raw_env_configuration file glob players seed kind full cycles rmode
    auto_rom_install_path entropy self :
  raw_env file glob players seed kind full cycles rmode auto_rom_install_path
    entropy = inr self →
  ((players = 2 ∧ mode self = 19 ∧ possible_agents self = ["first_0"; "second_0"]) ∨
   (players = 4 ∧ mode self = 21 ∧ possible_agents self = all_agent_names)) ∧
  agents self = possible_agents self ∧
  (∃ (i : nat) final,
     list_find (λ p, exists_ p = true)
       (rom_candidates "pong" auto_rom_install_path) = Some (i, final) ∧
     rom_path self = path_str final) ∧
  (∃ stem version,
     getitem (split "." (basename file)) 0 = inr stem ∧
     version_num (glob (join (dirname (dirname file)) (stem +:+ "*.py")))
       = inr version ∧
     name (metadata self) = stem +:+ "_" +:+ version).
Proof.
  unfold raw_env. intros Hr.
  bind_inv Hr as u Hcount. unfold assert in Hcount.
  destruct (_ || _) eqn:Ecount in Hcount; [|discriminate].
  bind_inv Hr as m Hm. bind_inv Hr as stem Hstem. bind_inv Hr as version Hversion.
  pose proof (init_inv_full _ _ _ _ _ _ _ _ _ _ _ _ Hr)
    as (final & m' & Hfinal & Hsel & _ & _ & Hpath & Hmode & _ & _ & _ & _ & _
        & Hmeta & _).
  pose proof (init_inv _ _ _ _ _ _ _ _ _ _ _ _ Hr) as (_ & _ & _ & Hag & Hposs & _).
  destruct Hsel as [[= <-] | [? _]]; [|discriminate].
  split_and!.
  - apply orb_true_iff in Ecount as [E|E]; apply bool_decide_eq_true_1 in E;
      subst players; injection Hm as <-; [left | right]; by rewrite Hposs.
  - done.
  - rewrite find_rom_first in Hfinal.
    destruct (list_find _ _) as [[i q]|]; [|discriminate].
    injection Hfinal as ->. eauto.
  - exists stem, version. split_and!; [done | done |]. by rewrite Hmeta.
Qed.

End FoozpongFacts.

(** ** The contract on the toy emulator *)

Import Toy Demo.

Lemma toy_one_reward_per_slot : one_reward_per_slot.
Proof. intros a v. reflexivity. Qed.

(** The constructor on the toy host builds the demo adapter. *)
Lemma demo_constructed cycles :
  __init__ "pong" 2 (Some 19) None "ram" false None cycles None None 7
  = inr (constructed cycles).
Proof. reflexivity. Qed.

Lemma demo_reset cycles :
  reset (constructed cycles) None 5 = inr (started cycles, (same_obs [0], no_infos)).
Proof. reflexivity. Qed.

Lemma demo_step1 :
  step (started 3) moves
  = inr (after1 3, (same_obs [1], scores, flags false false, flags false false,
                    no_infos)).
Proof. vm_compute. reflexivity. Qed.

Lemma demo_step2 :
  step (after1 3) moves
  = inr (after2 3, (same_obs [2], scores, flags true false, flags false false,
                    no_infos)).
Proof. vm_compute. reflexivity. Qed.

Lemma demo_step3 :
  step (after2 3) second_only
  = inr (after3 3, (dict_of [("second_0", [3])], dict_of [("second_0", 12)],
                    dict_of [("second_0", true)], dict_of [("second_0", true)],
                    dict_of [("second_0", ∅)])).
Proof. vm_compute. reflexivity. Qed.

(** The same first two steps when the episode is limited to two. *)
Lemma short_step1 :
  step (started 2) moves
  = inr (after1 2, (same_obs [1], scores, flags false false, flags false false,
                    no_infos)).
Proof. vm_compute. reflexivity. Qed.

Lemma short_step2 :
  step (after1 2) moves
  = inr (after2 2, (same_obs [2], scores, flags true false, flags true true,
                    no_infos)).
Proof. vm_compute. reflexivity. Qed.

(** An episode limited to a single step. *)
Lemma single_step :
  step (started 1) moves
  = inr (after1 1, (same_obs [1], scores, flags false false, flags true true,
                    no_infos)).
Proof. vm_compute. reflexivity. Qed.

Lemma both_distinct : NoDup both.
Proof. apply (bool_decide_unpack _). by vm_compute. Qed.

Lemma step_reports_pre_prune_agents_witness :
  agents (after1 3) ⊆ possible_agents (after1 3) ∧
  one_reward_per_slot ∧
  step (after1 3) moves
    = inr (after2 3, (same_obs [2], scores, flags true false, flags false false,
                      no_infos)) ∧
  dom scores = list_to_set (agents (after1 3)) ∧
  "first_0" ∈ dom scores ∧
  ("first_0" ∉ agents (after2 3)) ∧
  (∃ code, getitem (action_mapping (after2 3)) 0 = inr code ∧
           [0; 12] !! 0%nat = Some code).
Proof.
  assert (agents (after1 3) ⊆ possible_agents (after1 3)) as Hsub.
  { intros x Hx. exact Hx. }
  pose proof (step_reports_pre_prune_agents (after1 3) _ _ _ _ _ _ _
                Hsub toy_one_reward_per_slot demo_step2)
    as (_ & Hrews & _ & _ & _ & _ & Hdead).
  assert ("first_0" ∈ agents (after1 3)) as Hin by (apply list_elem_of_here).
  assert (flags true false !! "first_0" = Some true) as Hflag by reflexivity.
  destruct (Hdead _ Hin Hflag) as (_ & Hkey & _ & _ & _ & Hgone & Hnext).
  assert (dom second_only ⊆ list_to_set (agents (after2 3))) as Hkeys.
  { apply (bool_decide_unpack _). by vm_compute. }
  assert (native_actions (after2 3) second_only = inr [0; 12]) as Hv
    by reflexivity.
  split_and!; [exact Hsub | exact toy_one_reward_per_slot | exact demo_step2
              | exact Hrews | exact Hkey | exact Hgone
              | exact (Hnext second_only [0; 12] 0%nat Hkeys Hv eq_refl)].
Defined.

(** The adapter itself does not consult the active list when it fills
    the action vector: an action supplied for an agent that is no longer
    active is still translated and passed on. *)
Lemma supplied_action_of_inactive_agent :
  ("first_0" ∉ agents (after2 3)) ∧ native_actions (after2 3) moves = inr [3; 12].
Proof. split; [apply (bool_decide_unpack _); by vm_compute | reflexivity]. Qed.

Lemma step_terminations_witness :
  NoDup (possible_agents (after1 3)) ∧
  step (after1 3) moves
    = inr (after2 3, (same_obs [2], scores, flags true false, flags false false,
                      no_infos)) ∧
  game_over (ale (after2 3)) = false ∧
  (∃ life t, allLives (ale (after2 3)) !! 0%nat = Some life ∧
             flags true false !! "first_0" = Some t ∧ (t = true ↔ life < 0)) ∧
  flags true false !! "third_0" = None.
Proof.
  pose proof (step_terminations (after1 3) _ _ _ _ _ _ _ both_distinct demo_step2)
    as (_ & Hlives & Hout).
  assert (game_over (ale (after2 3)) = false) as Hover by reflexivity.
  assert (possible_agents (after1 3) !! 0%nat = Some "first_0") as Hslot
    by reflexivity.
  assert ("first_0" ∈ agents (after1 3)) as Hin by (apply list_elem_of_here).
  assert ("third_0" ∉ agents (after1 3)) as Hnot.
  { apply (bool_decide_unpack _). by vm_compute. }
  split_and!; [exact both_distinct | exact demo_step2 | exact Hover
              | exact (Hlives Hover _ _ Hslot Hin) | exact (Hout _ Hnot)].
Defined.

Lemma truncation_fires_at_max_cycles_witness :
  reset (constructed 2) None 5 = inr (started 2, (same_obs [0], no_infos)) ∧
  after_steps (started 2) 1 (after1 2) ∧
  step (after1 2) moves
    = inr (after2 2, (same_obs [2], scores, flags true false, flags true true,
                      no_infos)) ∧
  frame (after2 2) = Some 2 ∧
  flags true true !! "second_0" = Some true.
Proof.
  assert (after_steps (started 2) 1 (after1 2)) as Hone.
  { eapply after_steps_S; [apply after_steps_O | exact short_step1]. }
  pose proof (truncation_fires_at_max_cycles _ _ _ _ _ _ _ _ _ _ _ _ _ _
                (demo_reset 2) Hone short_step2) as [Hframe Htrunc].
  assert ("second_0" ∈ agents (after1 2)) as Hin.
  { apply list_elem_of_further, list_elem_of_here. }
  destruct (Htrunc _ Hin) as (_ & _ & Hfire).
  split_and!; [exact (demo_reset 2) | exact Hone | exact short_step2
              | exact Hframe | exact (Hfire eq_refl)].
Defined.

Lemma active_agents_never_return_witness :
  step (after1 3) moves
    = inr (after2 3, (same_obs [2], scores, flags true false, flags false false,
                      no_infos)) ∧
  agents (after2 3) `sublist_of` agents (after1 3) ∧
  ("first_0" ∉ agents (after2 3)) ∧
  step (after2 3) second_only
    = inr (after3 3, (dict_of [("second_0", [3])], dict_of [("second_0", 12)],
                      dict_of [("second_0", true)], dict_of [("second_0", true)],
                      dict_of [("second_0", ∅)])) ∧
  (dict_of [("second_0", 12)] : gmap string Z) !! "first_0" = None ∧
  (dict_of [("second_0", true)] : gmap string bool) !! "first_0" = None ∧
  "first_0" ∉ agents (after3 3).
Proof.
  pose proof (active_agents_never_return _ _ _ _ demo_step2) as [Hsub Hnever].
  assert ("first_0" ∉ agents (after2 3)) as Hgone.
  { apply (bool_decide_unpack _). by vm_compute. }
  destruct (Hnever "first_0" 0%nat (after2 3) Hgone (after_steps_O _))
    as [_ Hlater].
  destruct (Hlater _ _ _ _ _ _ _ demo_step3) as (Hrew & Hterm & Hstill).
  split_and!; [exact demo_step2 | exact Hsub | exact Hgone | exact demo_step3
              | exact Hrew | exact Hterm | exact Hstill].
Defined.

Lemma reset_postcondition_witness :
  reset (constructed 3) None 5 = inr (started 3, (same_obs [0], no_infos)) ∧
  agents (started 3) = possible_agents (started 3) ∧
  frame (started 3) = Some 0 ∧
  (∃ o, _observe (started 3) = inr o ∧
        ∀ a, same_obs [0] !! a
             = if decide (a ∈ agents (started 3)) then Some o else None) ∧
  (∀ a, no_infos !! a = if decide (a ∈ agents (started 3)) then Some ∅ else None).
Proof.
  pose proof (reset_postcondition _ _ _ _ _ _ (demo_reset 3))
    as (_ & Hag & _ & Hframe & _ & Hobs & Hinfos).
  split_and!; [exact (demo_reset 3) | exact Hag | exact Hframe | exact Hobs
              | exact Hinfos].
Defined.


Lemma render_without_mode_witness :
  render_mode (started 3) = None ∧
  render (started 3) = inr (started 3, [render_warning], None).
Proof.
  split; [reflexivity | apply render_without_mode; reflexivity].
Defined.

Lemma truncation_does_not_prune_witness :
  step (started 1) moves
    = inr (after1 1, (same_obs [1], scores, flags false false, flags true true,
                      no_infos)) ∧
  (∀ a, a ∈ agents (started 1) → flags true true !! a = Some true) ∧
  (∀ a, a ∈ agents (started 1) → flags false false !! a = Some false) ∧
  agents (after1 1) = agents (started 1).
Proof.
  pose proof (truncation_does_not_prune _ _ _ _ _ _ _ _ single_step)
    as [_ Hkeep].
  assert (∀ (b : bool) a, a ∈ agents (started 1) → flags b b !! a = Some b)
    as Hflags.
  { intros b a Ha. unfold flags.
    exact (eq_trans (dict_of_keyed_lookup (λ _, b) both a)
                    (decide_True _ _ Ha)). }
  split_and!; [exact single_step | exact (Hflags true) | exact (Hflags false)
              | exact (Hkeep (Hflags true) (Hflags false))].
Defined.

(** On a host with no files at all, and with an observation kind the
    constructor does not accept, every ROM candidate is missing and yet
    construction raises the assertion on the observation kind, not
    OSError: the kind is checked before the search begins. *)
Lemma rom_not_found_after_obs_type_check :
  Forall (λ p, exists_ p = false) (rom_candidates (host := empty_host) "pong" None) ∧
  __init__ (host := empty_host) "pong" 2 None None "bogus" false None 100000 None
    None 0 = inl (AssertionError obs_type_error) ∧
  ¬ ∃ msg, __init__ (host := empty_host) "pong" 2 None None "bogus" false None
             100000 None None 0 = inl (OSError msg).
Proof.
  split_and!.
  - by repeat constructor.
  - reflexivity.
  - intros [msg Hmsg]. discriminate Hmsg.
Qed.

Lemma rom_not_found_witness :
  "rgb_image" ∈ valid_obs_types ∧
  Forall (λ p, exists_ p = false) (rom_candidates (host := empty_host) "pong" None) ∧
  __init__ (host := empty_host) "pong" 2 None None "rgb_image" false None 100000
    None None 0 = inl (OSError (rom_error "pong")).
Proof.
  assert ("rgb_image" ∈ valid_obs_types) as Hkind.
  { apply list_elem_of_further, list_elem_of_here. }
  assert (Forall (λ p, exists_ p = false)
            (rom_candidates (host := empty_host) "pong" None)) as Hmissing.
  { by repeat constructor. }
  split_and!; [exact Hkind | exact Hmissing |].
  exact (rom_not_found (host := empty_host) "pong" 2 None None "rgb_image" false
           None 100000 None None 0 Hkind Hmissing).
Defined.

Lemma bad_configuration_fails_witness :
  find_rom "pong" None = inr "/site-packages/multi_agent_ale_py/roms/pong.bin" ∧
  (21 ∉ getAvailableModes
          (loadROM "/site-packages/multi_agent_ale_py/roms/pong.bin"
             (setFloat "repeat_action_probability" 0 ALEInterface_new)) 2) ∧
  ∃ msg, __init__ "pong" 2 (Some 21) None "ram" false None 100000 None None 0
         = inl (AssertionError msg).
Proof.
  assert (find_rom "pong" None
          = inr "/site-packages/multi_agent_ale_py/roms/pong.bin") as Hfound
    by reflexivity.
  assert (21 ∉ getAvailableModes
                 (loadROM "/site-packages/multi_agent_ale_py/roms/pong.bin"
                    (setFloat "repeat_action_probability" 0 ALEInterface_new)) 2)
    as Hmode.
  { apply (bool_decide_unpack _). by vm_compute. }
  split_and!; [exact Hfound | exact Hmode |].
  destruct (bad_configuration_fails "pong" 2 (Some 21) None "ram" false None
              100000 None None 0 _ Hfound
              (or_introl (ex_intro _ 21 (conj eq_refl Hmode))))
    as (msg & Hfail & _).
  exists msg. exact Hfail.
Defined.

(** ** More runs on the toy emulator *)

Import Demo2.

Lemma full_pong_constructed :
  __init__ "pong" 2 (Some 19) None "ram" true None 3 None None 7 = inr full_pong.
Proof. reflexivity. Qed.

Lemma rgb_pong_constructed :
  __init__ "pong" 2 (Some 19) None "rgb_image" false None 3 None None 7
  = inr rgb_pong.
Proof. reflexivity. Qed.

Lemma foozpong_four_constructed :
  foozpong.raw_env foozpong_file toy_glob 4 None "rgb_image" false 100000 None None 7
  = inr foozpong_four.
Proof. vm_compute. reflexivity. Qed.

Lemma demo_step4 :
  step (after3 3) ∅ = inr (after4, (∅, ∅, ∅, ∅, ∅)).
Proof. vm_compute. reflexivity. Qed.

Lemma late_step :
  step late moves
  = inr (over, (same_obs [10], scores, flags true true, flags true true, no_infos)).
Proof. vm_compute. reflexivity. Qed.

Lemma human_step :
  step (env 3 (Some "human") (playing 0 []) both 5 (Some cleared) (Some 0)) moves
  = inr (set_screen (Some drawn) (shown "human"),
         (same_obs [1], scores, flags false false, flags false false, no_infos)).
Proof. vm_compute. reflexivity. Qed.

Lemma two_steps : after_steps (started 3) 2 (after2 3).
Proof.
  eapply after_steps_S; [|exact demo_step2].
  eapply after_steps_S; [apply after_steps_O | exact demo_step1].
Qed.

Lemma constructed_roster_witness :
  __init__ "pong" 2 (Some 19) None "ram" false None 3 None None 7
    = inr (constructed 3) ∧
  possible_agents (constructed 3) = ["first_0"; "second_0"] ∧
  Z.of_nat (length (possible_agents (constructed 3))) = 2 ∧
  agents (constructed 3) = possible_agents (constructed 3).
Proof.
  pose proof (constructed_roster _ _ _ _ _ _ _ _ _ _ _ _ (demo_constructed 3))
    as (_ & Hnames & Hlen & _ & Hag).
  split_and!; [exact (demo_constructed 3) | exact Hnames | exact Hlen | exact Hag].
Defined.

Lemma too_many_players_witness :
  4 < 5 ∧
  ∃ e, __init__ "pong" 5 None None "ram" false None 3 None None 7 = inl e.
Proof.
  assert (4 < 5) as Hbig by lia.
  split; [exact Hbig|].
  exact (too_many_players "pong" 5 None None "ram" false None 3 None None 7 Hbig).
Defined.

Lemma constructed_configuration_valid_witness :
  __init__ "pong" 2 (Some 19) None "ram" false None 3 None None 7
    = inr (constructed 3) ∧
  mode (constructed 3) = 19 ∧
  numPlayersActive
    (setMode (mode (constructed 3))
       (loadROM (rom_path (constructed 3))
          (setFloat "repeat_action_probability" 0 ALEInterface_new))) = 2.
Proof.
  pose proof (constructed_configuration_valid _ _ _ _ _ _ _ _ _ _ _ _
                (demo_constructed 3)) as (_ & _ & _ & Hmode & Hplayers).
  split_and!; [exact (demo_constructed 3) | exact (Hmode 19 eq_refl)
              | exact Hplayers].
Defined.

Lemma constructed_rom_path_witness :
  __init__ "pong" 2 (Some 19) None "ram" false None 3 None None 7
    = inr (constructed 3) ∧
  ∃ (i : nat) final,
    list_find (λ p, exists_ p = true) (rom_candidates "pong" None) = Some (i, final) ∧
    rom_path (constructed 3) = path_str final.
Proof.
  split; [exact (demo_constructed 3)|].
  exact (constructed_rom_path _ _ _ _ _ _ _ _ _ _ _ _ (demo_constructed 3)).
Defined.

Lemma constructed_action_mapping_witness :
  __init__ "pong" 2 (Some 19) None "ram" true None 3 None None 7 = inr full_pong ∧
  action_mapping full_pong = range 18 ∧
  getitem (action_mapping full_pong) 17 = inr 17.
Proof.
  pose proof (constructed_action_mapping _ _ _ _ _ _ _ _ _ _ _ _
                full_pong_constructed) as [Hfull _].
  destruct (Hfull eq_refl) as [Htable Hid].
  assert (0 ≤ 17 < 18) as Hin by lia.
  split_and!; [exact full_pong_constructed | exact Htable | exact (Hid 17 Hin)].
Defined.

Lemma constructed_action_spaces_witness :
  __init__ "pong" 2 (Some 19) None "ram" false None 3 None None 7
    = inr (constructed 3) ∧
  action_space (constructed 3) "second_0" = inr 6 ∧
  action_space (constructed 3) "third_0" = inl (KeyError "third_0").
Proof.
  split_and!; [exact (demo_constructed 3) | |].
  - exact (constructed_action_spaces _ _ _ _ _ _ _ _ _ _ _ _ "second_0"
             (demo_constructed 3)).
  - exact (constructed_action_spaces _ _ _ _ _ _ _ _ _ _ _ _ "third_0"
             (demo_constructed 3)).
Defined.

Lemma constructed_observation_spaces_witness :
  __init__ "pong" 2 (Some 19) None "rgb_image" false None 3 None None 7
    = inr rgb_pong ∧
  observation_space rgb_pong "first_0" = inr [210; 160; 3] ∧
  observation_space rgb_pong "fourth_0" = inl (KeyError "fourth_0").
Proof.
  split_and!; [exact rgb_pong_constructed | |].
  - exact (constructed_observation_spaces _ _ _ _ _ _ _ _ _ _ _ _ "first_0"
             rgb_pong_constructed).
  - exact (constructed_observation_spaces _ _ _ _ _ _ _ _ _ _ _ _ "fourth_0"
             rgb_pong_constructed).
Defined.

Lemma reset_restarts_episode_witness :
  __init__ "pong" 2 (Some 19) None "ram" false None 3 None None 7
    = inr (constructed 3) ∧
  reset (constructed 3) None 5 = inr (started 3, (same_obs [0], no_infos)) ∧
  after_steps (started 3) 2 (after2 3) ∧
  ∃ self1 out1,
    reset (after2 3) (Some 11) 0 = inr (self1, out1) ∧
    agents self1 = possible_agents (constructed 3) ∧
    frame self1 = Some 0.
Proof.
  assert (∀ s, Some 11 = Some s → 0 ≤ s) as Hseed.
  { intros s [= <-]. lia. }
  split_and!; [exact (demo_constructed 3) | exact (demo_reset 3) | exact two_steps |].
  exact (reset_restarts_episode _ _ _ _ _ _ _ _ _ _ _ _ _ _ _ _ _ _ (Some 11) 0
           (demo_constructed 3) (demo_reset 3) two_steps Hseed).
Defined.

Lemma moves_in_range :
  ∀ a x, a ∈ possible_agents (started 3) → moves !! a = Some x →
         0 ≤ x < Z.of_nat (length (action_mapping (started 3))).
Proof.
  intros a x Ha Hx. simpl in Ha.
  apply elem_of_cons in Ha as [-> | Ha];
    [|apply elem_of_cons in Ha as [-> | Ha%elem_of_nil]; [|done]];
    vm_compute in Hx; injection Hx as <-; simpl; lia.
Qed.

Lemma valid_actions_accepted_witness :
  action_mapping (started 3) ≠ [] ∧
  Z.of_nat (length (action_mapping (started 3))) ≤ 2 ^ 31 ∧
  (∀ a x, a ∈ possible_agents (started 3) → moves !! a = Some x →
          0 ≤ x < Z.of_nat (length (action_mapping (started 3)))) ∧
  ∃ v, native_actions (started 3) moves = inr v ∧
       ∀ (i : nat) a, possible_agents (started 3) !! i = Some a →
         v !! i = action_mapping (started 3)
                    !! Z.to_nat (default 0 (moves !! a)) ∧
         is_Some (v !! i).
Proof.
  assert (action_mapping (started 3) ≠ []) as Hne by discriminate.
  assert (Z.of_nat (length (action_mapping (started 3))) ≤ 2 ^ 31) as Hsize.
  { simpl. lia. }
  split_and!; [exact Hne | exact Hsize | exact moves_in_range |].
  exact (valid_actions_accepted (started 3) moves Hne Hsize moves_in_range).
Defined.

Lemma bad_action_rejected_witness :
  "first_0" ∈ possible_agents (started 3) ∧
  too_big !! "first_0" = Some 6 ∧
  ¬ (- Z.of_nat (length (action_mapping (started 3))) ≤ 6
     < Z.of_nat (length (action_mapping (started 3)))) ∧
  ∃ e, native_actions (started 3) too_big = inl e ∧
       step (started 3) too_big = inl e ∧
       (e = IndexError ∨ e = OverflowError).
Proof.
  assert ("first_0" ∈ possible_agents (started 3)) as Hin
    by (apply list_elem_of_here).
  assert (too_big !! "first_0" = Some 6) as Hx by reflexivity.
  assert (¬ (- Z.of_nat (length (action_mapping (started 3))) ≤ 6
             < Z.of_nat (length (action_mapping (started 3))))) as Hbad.
  { simpl. lia. }
  split_and!; [exact Hin | exact Hx | exact Hbad |].
  exact (bad_action_rejected (started 3) too_big "first_0" 6 Hin Hx Hbad).
Defined.

Lemma step_before_reset_witness :
  frame (constructed 3) = None ∧
  native_actions (constructed 3) moves = inr [3; 12] ∧
  step (constructed 3) moves = inl (AttributeError "frame").
Proof.
  assert (frame (constructed 3) = None) as Hframe by reflexivity.
  assert (native_actions (constructed 3) moves = inr [3; 12]) as Hv by reflexivity.
  destruct (step_before_reset (constructed 3) moves Hframe) as [Hraise _].
  split_and!; [exact Hframe | exact Hv | exact (Hraise _ Hv)].
Defined.

Lemma step_rewards_witness :
  NoDup (possible_agents (after1 3)) ∧
  step (after1 3) moves
    = inr (after2 3, (same_obs [2], scores, flags true false, flags false false,
                      no_infos)) ∧
  ∃ v, native_actions (after1 3) moves = inr v ∧
       scores !! "second_0" = (act (ale (after1 3)) v).2 !! 1%nat.
Proof.
  split_and!; [exact both_distinct | exact demo_step2 |].
  destruct (step_rewards (after1 3) _ _ _ _ _ _ _ both_distinct demo_step2)
    as (v & Hv & Hslots).
  assert ("second_0" ∈ agents (after1 3)) as Hin.
  { apply list_elem_of_further, list_elem_of_here. }
  exists v. split; [exact Hv | exact (Hslots 1%nat "second_0" eq_refl Hin)].
Defined.

Lemma step_observations_witness :
  agents (after1 3) ⊆ possible_agents (after1 3) ∧
  step (after1 3) moves
    = inr (after2 3, (same_obs [2], scores, flags true false, flags false false,
                      no_infos)) ∧
  ∃ o, _observe (after2 3) = inr o ∧ o = getRAM (ale (after2 3)) ∧
       same_obs [2] !! "first_0" = Some o ∧
       no_infos !! "first_0" = Some ∅.
Proof.
  assert (agents (after1 3) ⊆ possible_agents (after1 3)) as Hsub.
  { intros x Hx. exact Hx. }
  split_and!; [exact Hsub | exact demo_step2 |].
  destruct (step_observations (after1 3) _ _ _ _ _ _ _ Hsub demo_step2)
    as (o & Ho & Hram & _ & _ & Hobs & Hinfos).
  exists o. split_and!; [exact Ho | exact (Hram eq_refl) | exact (Hobs "first_0")
                        | exact (Hinfos "first_0")].
Defined.

Lemma step_with_no_active_agents_witness :
  agents (after3 3) = [] ∧
  step (after3 3) ∅ = inr (after4, (∅, ∅, ∅, ∅, ∅)) ∧
  agents after4 = [] ∧
  ∃ n, frame (after3 3) = Some n ∧ frame after4 = Some (n + 1).
Proof.
  assert (agents (after3 3) = []) as Hnone by reflexivity.
  pose proof (step_with_no_active_agents (after3 3) _ _ _ _ _ _ _ Hnone demo_step4)
    as (_ & _ & _ & _ & _ & Hstill & Hframe & _).
  split_and!; [exact Hnone | exact demo_step4 | exact Hstill | exact Hframe].
Defined.

Lemma game_over_ends_episode_witness :
  step late moves
    = inr (over, (same_obs [10], scores, flags true true, flags true true,
                  no_infos)) ∧
  game_over (ale over) = true ∧
  agents over = [].
Proof.
  assert (game_over (ale over) = true) as Hover by reflexivity.
  split_and!; [exact late_step | exact Hover |].
  exact (game_over_ends_episode late _ _ _ _ _ _ _ late_step Hover).
Defined.

Lemma step_survivors_witness :
  NoDup (possible_agents (after1 3)) ∧
  agents (after1 3) ⊆ possible_agents (after1 3) ∧
  step (after1 3) moves
    = inr (after2 3, (same_obs [2], scores, flags true false, flags false false,
                      no_infos)) ∧
  game_over (ale (after2 3)) = false ∧
  ("second_0" ∈ agents (after2 3) ↔
   "second_0" ∈ agents (after1 3) ∧
   ∃ (i : nat) life, possible_agents (after1 3) !! i = Some "second_0" ∧
                     allLives (ale (after2 3)) !! i = Some life ∧ 0 ≤ life).
Proof.
  assert (agents (after1 3) ⊆ possible_agents (after1 3)) as Hsub.
  { intros x Hx. exact Hx. }
  assert (game_over (ale (after2 3)) = false) as Hover by reflexivity.
  split_and!; [exact both_distinct | exact Hsub | exact demo_step2 | exact Hover |].
  exact (step_survivors (after1 3) _ _ _ _ _ _ _ "second_0" both_distinct Hsub
           demo_step2 Hover).
Defined.

Lemma episode_keeps_configuration_witness :
  reset (constructed 3) None 5 = inr (started 3, (same_obs [0], no_infos)) ∧
  after_steps (started 3) 2 (after2 3) ∧
  possible_agents (after2 3) = possible_agents (constructed 3) ∧
  action_mapping (after2 3) = action_mapping (constructed 3) ∧
  max_cycles (after2 3) = max_cycles (constructed 3).
Proof.
  pose proof (episode_keeps_configuration _ _ _ _ _ _ _ (demo_reset 3) two_steps)
    as (Hp & Ha & Hm & _).
  split_and!; [exact (demo_reset 3) | exact two_steps | exact Hp | exact Ha
              | exact Hm].
Defined.

Lemma terminations_attribute_is_stale_witness :
  reset (constructed 3) None 5 = inr (started 3, (same_obs [0], no_infos)) ∧
  after_steps (started 3) 2 (after2 3) ∧
  ("first_0" ∉ agents (after2 3)) ∧
  ∃ stale, terminations (after2 3) = Some stale ∧
           stale !! "first_0" = Some false.
Proof.
  assert ("first_0" ∉ agents (after2 3)) as Hgone.
  { apply (bool_decide_unpack _). by vm_compute. }
  split_and!; [exact (demo_reset 3) | exact two_steps | exact Hgone |].
  destruct (terminations_attribute_is_stale _ _ _ _ _ _ _ (demo_reset 3) two_steps)
    as (stale & Hstale & Hall).
  exists stale. split; [exact Hstale | exact (Hall "first_0")].
Defined.

Lemma lives_cover_started :
  ∀ a, a ∈ agents (started 3) →
    ∃ i : nat, possible_agents (started 3) !! i = Some a ∧
               (i < length (allLives (act (ale (started 3)) [3%Z; 12%Z]).1))%nat.
Proof.
  intros a Ha. simpl in Ha.
  apply elem_of_cons in Ha as [-> | Ha];
    [exists 0%nat | apply elem_of_cons in Ha as [-> | Ha%elem_of_nil];
                    [exists 1%nat | done]];
    (split; [reflexivity | vm_compute; lia]).
Qed.

Lemma step_returns_witness :
  native_actions (started 3) moves = inr [3; 12] ∧
  frame (started 3) = Some 0 ∧
  obs_type (started 3) ∈ valid_obs_types ∧
  ∃ self' out, step (started 3) moves = inr (self', out).
Proof.
  assert (native_actions (started 3) moves = inr [3; 12]) as Hv by reflexivity.
  assert (frame (started 3) = Some 0) as Hframe by reflexivity.
  assert (obs_type (started 3) ∈ valid_obs_types) as Hkind
    by (apply list_elem_of_here).
  assert (render_mode (started 3) = Some "human" →
          "human" ∈ render_modes (metadata (started 3))) as Hhuman.
  { intros _. apply list_elem_of_here. }
  split_and!; [exact Hv | exact Hframe | exact Hkind |].
  exact (step_returns (started 3) moves [3; 12] 0 Hv Hframe Hkind Hhuman
           (or_intror lives_cover_started)).
Defined.

Lemma render_rgb_array_witness :
  render_mode (shown "rgb_array") = Some "rgb_array" ∧
  "rgb_array" ∈ render_modes (metadata (shown "rgb_array")) ∧
  render (shown "rgb_array") = inr (shown "rgb_array", [], Some [1; 1; 1]).
Proof.
  assert ("rgb_array" ∈ render_modes (metadata (shown "rgb_array"))) as Hin.
  { apply list_elem_of_further, list_elem_of_here. }
  split_and!; [reflexivity | exact Hin |].
  exact (render_rgb_array (shown "rgb_array") eq_refl Hin).
Defined.

Lemma render_human_witness :
  render_mode (shown "human") = Some "human" ∧
  "human" ∈ render_modes (metadata (shown "human")) ∧
  ∃ surface,
    render (shown "human") = inr (set_screen (Some surface) (shown "human"), [], None) ∧
    surface_image surface = Some [1; 1; 1] ∧
    surface_size surface = (640, 840).
Proof.
  assert ("human" ∈ render_modes (metadata (shown "human"))) as Hin
    by (apply list_elem_of_here).
  split_and!; [reflexivity | exact Hin |].
  exact (render_human (shown "human") eq_refl Hin).
Defined.

Lemma render_mode_checked_late_witness :
  __init__ "pong" 2 (Some 19) None "ram" false None 3 (Some "ansi") None 7
    = inr (env 3 (Some "ansi") (playing 0 []) both 7 None None) ∧
  "ansi" ≠ "human" ∧ "ansi" ≠ "rgb_array" ∧
  render (env 3 (Some "ansi") (playing 0 []) both 7 None None)
    = inl (AssertionError "ansi is not a valid render mode").
Proof.
  assert (__init__ "pong" 2 (Some 19) None "ram" false None 3 (Some "ansi") None 7
          = inr (env 3 (Some "ansi") (playing 0 []) both 7 None None)) as Hmade
    by reflexivity.
  assert ("ansi" ≠ "human") as H1 by discriminate.
  assert ("ansi" ≠ "rgb_array") as H2 by discriminate.
  split_and!; [exact Hmade | exact H1 | exact H2 |].
  exact (render_mode_checked_late _ _ _ _ _ _ _ _ _ _ _ _ Hmade H1 H2).
Defined.


Lemma step_display_witness :
  step (env 3 (Some "human") (playing 0 []) both 5 (Some cleared) (Some 0)) moves
    = inr (set_screen (Some drawn) (shown "human"),
           (same_obs [1], scores, flags false false, flags false false, no_infos)) ∧
  ∃ surface,
    _screen (set_screen (Some drawn) (shown "human")) = Some surface ∧
    surface_image surface
      = Some (getScreenRGB (ale (set_screen (Some drawn) (shown "human")))).
Proof.
  split; [exact human_step|].
  destruct (step_display _ _ _ _ human_step) as [Hdrawn _].
  exact (Hdrawn eq_refl).
Defined.

Lemma version_num_of_versioned_file_witness :
  foozpong.contains "_" "v3" = false ∧
  foozpong.contains "." "v3" = false ∧
  foozpong.contains "_" "py" = false ∧
  foozpong.version_num ["/my_site/pettingzoo/atari/foozpong_v3.py"] = inr "v3".
Proof.
  split_and!; [reflexivity | reflexivity | reflexivity |].
  exact (version_num_of_versioned_file "/my_site/pettingzoo/atari/foozpong" "v3" "py" []
           eq_refl eq_refl eq_refl).
Defined.

Lemma raw_env_rejects_player_count_witness :
  3 ≠ 2 ∧ 3 ≠ 4 ∧
  foozpong.raw_env foozpong_file toy_glob 3 None "rgb_image" false 100000 None None 7
    = inl (AssertionError foozpong.player_count_error).
Proof.
  assert (3 ≠ 2) as H2 by lia. assert (3 ≠ 4) as H4 by lia.
  split_and!; [exact H2 | exact H4 |].
  exact (raw_env_rejects_player_count foozpong_file toy_glob 3 None "rgb_image"
           false 100000 None None 7 H2 H4).
Defined.


Lemma raw_env_configuration_witness :
  foozpong.raw_env foozpong_file toy_glob 4 None "rgb_image" false 100000 None None 7
    = inr foozpong_four ∧
  mode foozpong_four = 21 ∧
  possible_agents foozpong_four = all_agent_names ∧
  name (metadata foozpong_four) = "foozpong_v3".
Proof.
  pose proof (raw_env_configuration _ _ _ _ _ _ _ _ _ _ _ foozpong_four_constructed)
    as (Hmode & _ & _ & stem & version & Hstem & Hversion & Hname).
  assert (stem = "foozpong") as -> by (by injection Hstem as <-).
  assert (version = "v3") as ->.
  { revert Hversion. vm_compute. by intros [= <-]. }
  destruct Hmode as [(Hfalse & _) | (_ & H21 & Hroster)]; [discriminate Hfalse|].
  split_and!; [exact foozpong_four_constructed | exact H21 | exact Hroster
              | exact Hname].
Defined.

Lemma unsupported_player_count_without_mode_witness :
  "rgb_image" ∈ valid_obs_types ∧
  find_rom "pong" None = inr "/site-packages/multi_agent_ale_py/roms/pong.bin" ∧
  getAvailableModes
    (loadROM "/site-packages/multi_agent_ale_py/roms/pong.bin"
       (setFloat "repeat_action_probability" 0 ALEInterface_new)) 3 = [] ∧
  __init__ "pong" 3 None None "rgb_image" false None 100000 None None 0
    = inl IndexError ∧
  __init__ "pong" 3 (Some 19) None "rgb_image" false None 100000 None None 0
    = inl (AssertionError
             "mode_num parameter is wrong. Mode 19 selected, only [] modes are supported").
Proof.
  assert ("rgb_image" ∈ valid_obs_types) as Hkind.
  { apply list_elem_of_further, list_elem_of_here. }
  assert (find_rom "pong" None
          = inr "/site-packages/multi_agent_ale_py/roms/pong.bin") as Hfound
    by reflexivity.
  assert (getAvailableModes
            (loadROM "/site-packages/multi_agent_ale_py/roms/pong.bin"
               (setFloat "repeat_action_probability" 0 ALEInterface_new)) 3 = [])
    as Hnone by reflexivity.
  destruct (unsupported_player_count_without_mode "pong" 3 None "rgb_image" false
              None 100000 None None 0 _ Hkind Hfound Hnone) as [Hindex Hassert].
  split_and!; [exact Hkind | exact Hfound | exact Hnone | exact Hindex
              | exact (Hassert 19)].
Defined.
